(** * ts-frame: the DataFrame container, the column checks and the CSV codec

    A shallow embedding of [core/DataFrame.ts], [columns/types.ts],
    [columns/validation.ts] and [io/csv.ts].

    Conventions of the embedding.
    - A JavaScript string is the list of its UTF-16 code units ([list N]).
    - A row ([Record<string, any>]) is the list of its own enumerable
      properties in creation order; [Object_keys] applies the ECMAScript
      ordering (array indices ascending, then the other names in creation
      order).
    - An object the program makes with the literal [{}] and fills by
      assignments also records whether it still inherits from
      [Object.prototype]: there the assignment to the key [__proto__] runs
      the inherited setter, which defines no property (it ignores a
      primitive, and [null] removes the prototype); see [assign].
    - Reading a key that a row does not own answers [undefined]: the
      members a row inherits from [Object.prototype] are not modelled on
      reads.
    - Cell values are the primitives [undefined], [null], booleans, numbers
      and strings.
    - A finite number is the exact decimal value of its numeral, kept in the
      form [s * 10^(n-k)] that ECMAScript's [Number::toString] works on;
      rounding to binary64 is not modelled, overflow to [Infinity] is.
      Negative zero is not told apart from zero.
    - [throw new Error(...)] is the [Err] branch of [result]. *)

From Stdlib Require Import List NArith ZArith Bool Lia Sorted.
From Stdlib Require Import Ascii String.
From Stdlib Require Import DecimalN DecimalPos.
Import ListNotations.

Local Open Scope N_scope.
Local Open Scope list_scope.

(* ================================================================== *)
(** ** Strings *)

Definition char := N.
Definition jsstring := list char.

(** Code units of a literal (each byte of the literal is one code unit). *)
Definition str (s : string) : jsstring :=
  map N_of_ascii (list_ascii_of_string s).

Definition LF : char := 10.
Definition CR : char := 13.
Definition QUOTE : char := 34.
Definition COMMA : char := 44.

Fixpoint streq (a b : jsstring) : bool :=
  match a, b with
  | [], [] => true
  | x :: a', y :: b' => (x =? y) && streq a' b'
  | _, _ => false
  end.

(** [s.includes(c)] for a one-character needle. *)
Definition includes (s : jsstring) (c : char) : bool :=
  existsb (N.eqb c) s.

(** [arr.includes(x)] on an array of strings. *)
Definition arr_includes (l : list jsstring) (x : jsstring) : bool :=
  existsb (streq x) l.

(** [parts.join(sep)]. *)
Fixpoint join (sep : jsstring) (parts : list jsstring) : jsstring :=
  match parts with
  | [] => []
  | [p] => p
  | p :: rest => p ++ sep ++ join sep rest
  end.

(** White space and line terminators removed by [String.prototype.trim]. *)
Definition isWhiteSpace (c : char) : bool :=
  ((9 <=? c) && (c <=? 13)) || (c =? 32) || (c =? 160) || (c =? 5760)
  || ((8192 <=? c) && (c <=? 8202)) || (c =? 8232) || (c =? 8233)
  || (c =? 8239) || (c =? 8287) || (c =? 12288) || (c =? 65279).

Fixpoint trimStart (s : jsstring) : jsstring :=
  match s with
  | c :: s' => if isWhiteSpace c then trimStart s' else s
  | [] => []
  end.

Definition trim (s : jsstring) : jsstring :=
  rev (trimStart (rev (trimStart s))).

(* ================================================================== *)
(** ** Numbers and values *)

(** A finite nonzero number is [0.d1...dk * 10^n] with [d1] and [dk] not
    zero; [digits] holds the characters [d1...dk].  Zero has no digits. *)
Record decimal := Decimal {
  negative : bool;
  digits : jsstring;
  point : Z
}.

Inductive number :=
| NaN
| Infinity (neg : bool)
| Finite (d : decimal).

Inductive jsvalue :=
| VUndefined
| VNull
| VBool (b : bool)
| VNum (x : number)
| VStr (s : jsstring).

Definition isNullish (v : jsvalue) : bool :=
  match v with VUndefined | VNull => true | _ => false end.

(** [typeof value === 'number' && Number.isNaN(value)]. *)
Definition isNaNValue (v : jsvalue) : bool :=
  match v with VNum NaN => true | _ => false end.

(* ================================================================== *)
(** ** Row objects *)

Definition obj := list (jsstring * jsvalue).

(** [o[k]] by the own properties of [o]; [undefined] for a key [o] does
    not own. *)
Fixpoint obj_get (o : obj) (k : jsstring) : jsvalue :=
  match o with
  | [] => VUndefined
  | (k', v) :: o' => if streq k k' then v else obj_get o' k
  end.

(** Defining or updating the own property [k] of [o]: an existing
    property keeps its place, a new one goes last. *)
Fixpoint obj_set (o : obj) (k : jsstring) (v : jsvalue) : obj :=
  match o with
  | [] => [(k, v)]
  | (k', v') :: o' =>
      if streq k k' then (k', v) :: o' else (k', v') :: obj_set o' k v
  end.

(** The key of the prototype accessor of [Object.prototype]. *)
Definition PROTO : jsstring := str "__proto__".

(** An object made by the literal [{}]: its own properties, and whether
    its prototype is still [Object.prototype]. *)
Record literal := mkLiteral {
  props : obj;
  inherits : bool
}.

(** [{}] *)
Definition emptyObject : literal := mkLiteral [] true.

(** [o[k] = v] on such an object, for a cell value [v].  The key
    [__proto__], when the object does not own it and still inherits the
    accessor, goes to the setter: [null] removes the prototype, any other
    cell value (a primitive) is ignored, and no property is defined.  Every
    other assignment defines or updates an own property: the data
    properties of [Object.prototype] are writable. *)
Definition assign (o : literal) (k : jsstring) (v : jsvalue) : literal :=
  if streq PROTO k && inherits o
     && negb (arr_includes (map fst (props o)) k)
  then match v with
       | VNull => mkLiteral (props o) false
       | _ => o
       end
  else mkLiteral (obj_set (props o) k v) (inherits o).

Definition isDigit (c : char) : bool := (48 <=? c) && (c <=? 57).

Fixpoint uintChars (u : Decimal.uint) : jsstring :=
  match u with
  | Decimal.Nil => []
  | Decimal.D0 u' => 48 :: uintChars u'
  | Decimal.D1 u' => 49 :: uintChars u'
  | Decimal.D2 u' => 50 :: uintChars u'
  | Decimal.D3 u' => 51 :: uintChars u'
  | Decimal.D4 u' => 52 :: uintChars u'
  | Decimal.D5 u' => 53 :: uintChars u'
  | Decimal.D6 u' => 54 :: uintChars u'
  | Decimal.D7 u' => 55 :: uintChars u'
  | Decimal.D8 u' => 56 :: uintChars u'
  | Decimal.D9 u' => 57 :: uintChars u'
  end.

(** Decimal digits of a natural number, most significant first. *)
Definition digitsOfN (n : N) : jsstring := uintChars (N.to_uint n).

Fixpoint charsUint (s : jsstring) : Decimal.uint :=
  match s with
  | [] => Decimal.Nil
  | c :: s' =>
      let u := charsUint s' in
      if c =? 49 then Decimal.D1 u else if c =? 50 then Decimal.D2 u
      else if c =? 51 then Decimal.D3 u else if c =? 52 then Decimal.D4 u
      else if c =? 53 then Decimal.D5 u else if c =? 54 then Decimal.D6 u
      else if c =? 55 then Decimal.D7 u else if c =? 56 then Decimal.D8 u
      else if c =? 57 then Decimal.D9 u else Decimal.D0 u
  end.

(** The natural number a string of decimal digits denotes. *)
Definition digitsValue (s : jsstring) : N := N.of_uint (charsUint s).

(** An array index is a canonical numeral (the string of its own value)
    of an integer below 2^32 - 1. *)
Definition arrayIndex (k : jsstring) : option N :=
  if (List.length k <=? 10)%nat then
    let i := digitsValue k in
    if streq (digitsOfN i) k && (i <=? 4294967294) then Some i else None
  else None.

Fixpoint insertIndex (i : N) (k : jsstring) (l : list (N * jsstring))
  : list (N * jsstring) :=
  match l with
  | [] => [(i, k)]
  | (j, k') :: l' =>
      if i <? j then (i, k) :: l else (j, k') :: insertIndex i k l'
  end.

Fixpoint indexKeys (ks : list jsstring) : list (N * jsstring) :=
  match ks with
  | [] => []
  | k :: ks' =>
      match arrayIndex k with
      | Some i => insertIndex i k (indexKeys ks')
      | None => indexKeys ks'
      end
  end.

Definition isNamedKey (k : jsstring) : bool :=
  match arrayIndex k with Some _ => false | None => true end.

(** [Object.keys(o)] *)
Definition Object_keys (o : obj) : list jsstring :=
  let ks := map fst o in
  map snd (indexKeys ks) ++ filter isNamedKey ks.

(* ================================================================== *)
(** ** Errors *)

Inductive error :=
| UnknownColumn (name : jsstring)   (* Column [name] does not exist *)
| InvalidSelection.                 (* At least one column must be selected *)

Inductive result (A : Type) :=
| Ok (a : A)
| Err (e : error).
Arguments Ok {A} a.
Arguments Err {A} e.

Definition bind {A B} (r : result A) (f : A -> result B) : result B :=
  match r with Ok a => f a | Err e => Err e end.

Notation "'let*' x ':=' r 'in' k" := (bind r (fun x => k))
  (at level 10, x name, r at level 100, k at level 200).

(* ================================================================== *)
(** ** core/DataFrame.ts *)

Record DataFrame := mkDataFrame {
  data : list obj;
  columns : list jsstring
}.

(** [new DataFrame(data)].  Rows are objects by their type, so the
    [typeof firstRow !== 'object'] guard never fires. *)
Definition newDataFrame (rows : list obj) : DataFrame :=
  match rows with
  | [] => mkDataFrame [] []
  | firstRow :: _ => mkDataFrame rows (Object_keys firstRow)
  end.

Definition length (df : DataFrame) : nat := List.length (data df).
Definition width (df : DataFrame) : nat := List.length (columns df).
Definition getColumnNames (df : DataFrame) : list jsstring := columns df.
Definition getRows (df : DataFrame) : list obj := data df.

Definition getColumn (df : DataFrame) (columnName : jsstring) : list jsvalue :=
  map (fun row => obj_get row columnName) (data df).

(** The verification loop of [select]: the first missing name is thrown. *)
Fixpoint verifyColumns (cols : list jsstring) (names : list jsstring)
  : result unit :=
  match names with
  | [] => Ok tt
  | col :: rest =>
      if arr_includes cols col then verifyColumns cols rest
      else Err (UnknownColumn col)
  end.

Definition selectRow (columnNames : list jsstring) (row : obj) : obj :=
  props (fold_left (fun selectedRow col =>
                      assign selectedRow col (obj_get row col))
                   columnNames emptyObject).

Definition select (df : DataFrame) (columnNames : list jsstring)
  : result DataFrame :=
  match columnNames with
  | [] => Err InvalidSelection
  | _ =>
      let* _ := verifyColumns (columns df) columnNames in
      Ok (newDataFrame (map (selectRow columnNames) (data df)))
  end.

(* ================================================================== *)
(** ** columns/types.ts *)

Definition isNumberValue (v : jsvalue) : bool :=
  match v with
  | VNum NaN => false
  | VNum _ => true
  | _ => false
  end.

Definition isStringValue (v : jsvalue) : bool :=
  match v with VStr _ => true | _ => false end.

(** The [for (const row of data)] scan shared by both checks: nullish
    cells are skipped, the first offending cell returns [false]. *)
Fixpoint scanColumn (ok : jsvalue -> bool) (rows : list obj)
  (columnName : jsstring) : bool :=
  match rows with
  | [] => true
  | row :: rest =>
      let v := obj_get row columnName in
      if isNullish v then scanColumn ok rest columnName
      else if ok v then scanColumn ok rest columnName
      else false
  end.

Definition isNumeric (df : DataFrame) (columnName : jsstring) : result bool :=
  if negb (arr_includes (getColumnNames df) columnName)
  then Err (UnknownColumn columnName)
  else match getRows df with
       | [] => Ok false
       | rows => Ok (scanColumn isNumberValue rows columnName)
       end.

Definition isString (df : DataFrame) (columnName : jsstring) : result bool :=
  if negb (arr_includes (getColumnNames df) columnName)
  then Err (UnknownColumn columnName)
  else match getRows df with
       | [] => Ok false
       | rows => Ok (scanColumn isStringValue rows columnName)
       end.

Inductive columnType := TNumber | TString | TMixed | TEmpty.

Definition getColumnType (df : DataFrame) (columnName : jsstring)
  : result columnType :=
  if negb (arr_includes (getColumnNames df) columnName)
  then Err (UnknownColumn columnName)
  else match getRows df with
       | [] => Ok TEmpty
       | _ =>
           let* hasNumber := isNumeric df columnName in
           let* hasString := isString df columnName in
           if hasNumber && negb hasString then Ok TNumber
           else if hasString && negb hasNumber then Ok TString
           else Ok TMixed
       end.

(* ================================================================== *)
(** ** columns/validation.ts *)

Definition isNull (df : DataFrame) (columnName : jsstring)
  : result (list bool) :=
  if negb (arr_includes (getColumnNames df) columnName)
  then Err (UnknownColumn columnName)
  else Ok (map (fun row => isNullish (obj_get row columnName)) (getRows df)).

Definition isNaN (df : DataFrame) (columnName : jsstring)
  : result (list bool) :=
  if negb (arr_includes (getColumnNames df) columnName)
  then Err (UnknownColumn columnName)
  else Ok (map (fun row => isNaNValue (obj_get row columnName)) (getRows df)).

Definition notNull (df : DataFrame) (columnName : jsstring)
  : result (list bool) :=
  let* mask := isNull df columnName in Ok (map negb mask).

Definition hasNull (df : DataFrame) (columnName : jsstring) : result bool :=
  let* mask := isNull df columnName in Ok (existsb (fun val => val) mask).

Definition hasNaN (df : DataFrame) (columnName : jsstring) : result bool :=
  let* mask := isNaN df columnName in Ok (existsb (fun val => val) mask).

Definition countNull (df : DataFrame) (columnName : jsstring) : result nat :=
  let* mask := isNull df columnName in
  Ok (List.length (filter (fun val => val) mask)).

Definition countNaN (df : DataFrame) (columnName : jsstring) : result nat :=
  let* mask := isNaN df columnName in
  Ok (List.length (filter (fun val => val) mask)).

(* ================================================================== *)
(** ** Number to string and string to number *)

Definition zeros (n : Z) : jsstring := repeat 48 (Z.to_nat n).

(** The exponent part of [Number::toString]: [e], the sign and the digits
    of [n - 1]. *)
Definition exponentText (n : Z) : jsstring :=
  let e := (n - 1)%Z in
  str "e" ++ (if (e <? 0)%Z then str "-" else str "+")
          ++ digitsOfN (Z.abs_N e).

(** [Number::toString] on a positive value [0.d1...dk * 10^n] with the
    digits [s]. *)
Definition magnitudeToString (s : jsstring) (n : Z) : jsstring :=
  let k := Z.of_nat (List.length s) in
  if (k <=? n)%Z && (n <=? 21)%Z then
    s ++ zeros (n - k)
  else if (0 <? n)%Z && (n <=? 21)%Z then
    firstn (Z.to_nat n) s ++ str "." ++ skipn (Z.to_nat n) s
  else if (-6 <? n)%Z && (n <=? 0)%Z then
    str "0." ++ zeros (- n) ++ s
  else
    match s with
    | [] => []
    | [first] => [first] ++ exponentText n
    | first :: more => [first] ++ str "." ++ more ++ exponentText n
    end.

(** [Number::toString] on a finite value. *)
Definition decimalToString (d : decimal) : jsstring :=
  match digits d with
  | [] => str "0"
  | _ =>
      (if negative d then str "-" else [])
      ++ magnitudeToString (digits d) (point d)
  end.

Definition numberToString (x : number) : jsstring :=
  match x with
  | NaN => str "NaN"
  | Infinity false => str "Infinity"
  | Infinity true => str "-Infinity"
  | Finite d => decimalToString d
  end.

(** [String(value)] *)
Definition String_ (v : jsvalue) : jsstring :=
  match v with
  | VUndefined => str "undefined"
  | VNull => str "null"
  | VBool true => str "true"
  | VBool false => str "false"
  | VNum x => numberToString x
  | VStr s => s
  end.

(** The longest prefix of digits and what follows it. *)
Fixpoint spanDigits (s : jsstring) : jsstring * jsstring :=
  match s with
  | c :: s' =>
      if isDigit c then let (ds, rest) := spanDigits s' in (c :: ds, rest)
      else ([], s)
  | [] => ([], [])
  end.

Record numeral := Numeral {
  nneg : bool;
  nint : jsstring;
  nfrac : jsstring;
  nexp : Z
}.

Definition scanExponent (s : jsstring) : option Z :=
  match s with
  | [] => Some 0%Z
  | c :: s1 =>
      if (c =? 101) || (c =? 69) then
        let (sign, s2) :=
          match s1 with
          | c' :: s2 =>
              if c' =? 43 then (false, s2)
              else if c' =? 45 then (true, s2) else (false, s1)
          | [] => (false, s1)
          end in
        match spanDigits s2 with
        | ((_ :: _) as ds, []) =>
            let e := Z.of_N (digitsValue ds) in
            Some (if sign then (- e)%Z else e)
        | _ => None
        end
      else None
  end.

(** The optional group [(\.\d+)?]: the fraction digits and what follows. *)
Definition scanFraction (s : jsstring) : jsstring * jsstring :=
  match s with
  | c :: s' =>
      if c =? 46 then
        match spanDigits s' with
        | ([], _) => ([], s)
        | (frac, rest) => (frac, rest)
        end
      else ([], s)
  | [] => ([], s)
  end.

(** [\d+(\.\d+)?(e[+-]?\d+)?$] after the sign. *)
Definition scanUnsigned (neg : bool) (s : jsstring) : option numeral :=
  match spanDigits s with
  | ([], _) => None
  | (int, s2) =>
      let (frac, s3) := scanFraction s2 in
      match scanExponent s3 with
      | Some e => Some (Numeral neg int frac e)
      | None => None
      end
  end.

(** [-?]: the sign, when there is one, and what follows. *)
Definition scanSign (s : jsstring) : bool * jsstring :=
  match s with
  | c :: s1 => if c =? 45 then (true, s1) else (false, s)
  | [] => (false, s)
  end.

(** A scan for [/^-?\d+(\.\d+)?(e[+-]?\d+)?$/i]; the parts of the numeral
    are returned on a match. *)
Definition scanNumeral (s : jsstring) : option numeral :=
  let (neg, s1) := scanSign s in scanUnsigned neg s1.

Definition numberPattern (s : jsstring) : bool :=
  match scanNumeral s with Some _ => true | None => false end.

Fixpoint dropZeros (s : jsstring) : jsstring :=
  match s with
  | c :: s' => if c =? 48 then dropZeros s' else s
  | [] => []
  end.

(** [0+[1-9]] at the start of the text. *)
Definition zerosThenNonzero (s : jsstring) : bool :=
  match s with
  | c :: s2 =>
      (c =? 48) &&
      match dropZeros s2 with
      | c' :: _ => (49 <=? c') && (c' <=? 57)
      | [] => false
      end
  | [] => false
  end.

(** [/^-?0+[1-9]/] *)
Definition hasLeadingZeros (s : jsstring) : bool :=
  zerosThenNonzero (snd (scanSign s)).

(** Values from [2^1024 - 2^970] on round to [Infinity]. *)
Definition overflowThreshold : Z := (2 ^ 1024 - 2 ^ 970)%Z.

Definition overflows (s : jsstring) (n : Z) : bool :=
  if (309 <? n)%Z then true
  else if (n <? 309)%Z then false
  else
    let k := Z.of_nat (List.length s) in
    let v := Z.of_N (digitsValue s) in
    if (k <=? 309)%Z then (overflowThreshold <=? v * 10 ^ (309 - k))%Z
    else (overflowThreshold * 10 ^ (k - 309) <=? v)%Z.

Definition numeralValue (m : numeral) : number :=
  let all := nint m ++ nfrac m in
  let significant := dropZeros all in
  let s := rev (dropZeros (rev significant)) in
  match s with
  | [] => Finite (Decimal false [] 0)
  | _ =>
      let n := (Z.of_nat (List.length (nint m))
                - Z.of_nat (List.length all - List.length significant)
                + nexp m)%Z in
      if overflows s n then Infinity (nneg m)
      else Finite (Decimal (nneg m) s n)
  end.

(** [Number(s)] on the numerals [numberPattern] accepts; no other string
    reaches it. *)
Definition Number_ (s : jsstring) : number :=
  match scanNumeral s with
  | Some m => numeralValue m
  | None => NaN
  end.

Definition Number_isNaN (x : number) : bool :=
  match x with NaN => true | _ => false end.

Definition isFinite (x : number) : bool :=
  match x with Finite _ => true | _ => false end.

(* ================================================================== *)
(** ** io/csv.ts *)

Record CSVExportOptions := {
  export_delimiter : option jsstring;
  includeHeaders : option bool
}.

Record CSVImportOptions := {
  import_delimiter : option jsstring;
  hasHeaders : option bool;
  skipEmptyLines : option bool
}.

(** [options?.field ?? dflt] *)
Definition optionOr {O A} (options : option O) (field : O -> option A)
  (dflt : A) : A :=
  match options with
  | Some o => match field o with Some a => a | None => dflt end
  | None => dflt
  end.

(** The [replace] of [escapeCSVValue]: every double quote is doubled. *)
Fixpoint doubleQuotes (s : jsstring) : jsstring :=
  match s with
  | [] => []
  | c :: s' =>
      if c =? QUOTE then QUOTE :: QUOTE :: doubleQuotes s'
      else c :: doubleQuotes s'
  end.

Definition escapeCSVValue (v : jsvalue) (isNumeric : bool) : jsstring :=
  if isNumeric then String_ v
  else
    let strValue := String_ v in
    if includes strValue COMMA || includes strValue QUOTE
       || includes strValue LF || includes strValue CR
    then [QUOTE] ++ doubleQuotes strValue ++ [QUOTE]
    else strValue.

(** What follows the [while] loop of [parseCSVRows]. *)
Definition finishRows (rows : list (list jsstring))
  (currentRow : list jsstring) (current : jsstring) : list (list jsstring) :=
  let currentRow := currentRow ++ [current] in
  if (0 <? List.length currentRow)%nat || negb (streq current [])
  then rows ++ [currentRow] else rows.

(** The [while] loop of [parseCSVRows] on the text from index [i] on;
    [rest] is the text from [i + 1] and [after] the text from [i + 2]. *)
Fixpoint parseLoop (delimiter : jsstring) (text : jsstring)
  (rows : list (list jsstring)) (currentRow : list jsstring)
  (current : jsstring) (inQuotes : bool) : list (list jsstring) :=
  match text with
  | [] => finishRows rows currentRow current
  | ch :: rest =>
      let nextIs (c : N) :=
        match rest with nextChar :: _ => nextChar =? c | [] => false end in
      let after := match rest with _ :: after => after | [] => rest end in
      if ch =? QUOTE then
        if inQuotes && nextIs QUOTE then
          parseLoop delimiter after rows currentRow
                    (current ++ [QUOTE]) inQuotes
        else if inQuotes then
          parseLoop delimiter rest rows currentRow current false
        else
          parseLoop delimiter rest rows currentRow current true
      else if streq [ch] delimiter && negb inQuotes then
        parseLoop delimiter rest rows (currentRow ++ [current]) [] inQuotes
      else if ((ch =? LF) || ((ch =? CR) && negb (nextIs LF)))
              && negb inQuotes then
        let rows := rows ++ [currentRow ++ [current]] in
        if (ch =? CR) && nextIs LF then
          parseLoop delimiter after rows [] [] inQuotes
        else
          parseLoop delimiter rest rows [] [] inQuotes
      else
        parseLoop delimiter rest rows currentRow (current ++ [ch]) inQuotes
  end.

Definition parseCSVRows (csvString delimiter : jsstring)
  : list (list jsstring) :=
  parseLoop delimiter csvString [] [] [] false.

(** One data cell of [toCSV]. *)
Definition cellText (v : jsvalue) : jsstring :=
  if isNullish v then []
  else escapeCSVValue v (isNumberValue v).

Definition headerLine (cols : list jsstring) (delimiter : jsstring)
  : jsstring :=
  join delimiter (map (fun col => escapeCSVValue (VStr col) true) cols).

Definition toCSV (df : DataFrame) (options : option CSVExportOptions)
  : jsstring :=
  let delimiter := optionOr options export_delimiter [COMMA] in
  let includeHeaders := optionOr options includeHeaders true in
  let data := getRows df in
  let columns := getColumnNames df in
  match data with
  | [] =>
      if (0 <? List.length columns)%nat && includeHeaders
      then headerLine columns delimiter
      else []
  | _ =>
      let lines := if includeHeaders then [headerLine columns delimiter]
                   else [] in
      let lines :=
        lines ++
        map (fun row =>
               join delimiter
                    (map (fun col => cellText (obj_get row col)) columns))
            data in
      join [LF] lines
  end.

(** The type inference of [fromCSV] on one field. *)
Definition inferValue (value : jsstring) : jsvalue :=
  let trimmedValue := trim value in
  if streq trimmedValue [] || streq trimmedValue (str "null")
     || streq trimmedValue (str "NULL")
  then VNull
  else if numberPattern trimmedValue && negb (hasLeadingZeros trimmedValue)
  then
    let numValue := Number_ trimmedValue in
    if negb (Number_isNaN numValue) && isFinite numValue
    then VNum numValue
    else VStr value
  else VStr value.

(** The [while] loop that pads a short row with empty strings. *)
Definition padValues (values : list jsstring) (n : nat) : list jsstring :=
  values ++ repeat [] (n - List.length values).

(** The loop over [j]: [values] is the row from index [j] on. *)
Fixpoint assignCells (columnNames values : list jsstring) (row : literal)
  : literal :=
  match columnNames with
  | [] => row
  | columnName :: names =>
      let value := match values with v :: _ => v | [] => [] end in
      assignCells names (tl values) (assign row columnName (inferValue value))
  end.

Definition parseDataRow (columnNames rowValues : list jsstring) : obj :=
  let values := padValues rowValues (List.length columnNames) in
  props (assignCells columnNames values emptyObject).

Definition isBlankRow (row : list jsstring) : bool :=
  negb (existsb (fun cell => negb (streq (trim cell) [])) row).

(** [column1], [column2], ... for a first row of the given width. *)
Definition syntheticNames (firstRow : list jsstring) : list jsstring :=
  map (fun index => str "column" ++ digitsOfN (N.of_nat (index + 1)))
      (seq 0 (List.length firstRow)).

(** The rows [fromCSV] works on: the tokenizer's rows, without the blank
    ones when [skipEmptyLines] is set. *)
Definition filteredRowsOf (csvString : jsstring)
  (options : option CSVImportOptions) : list (list jsstring) :=
  let delimiter := optionOr options import_delimiter [COMMA] in
  let skipEmptyLines := optionOr options skipEmptyLines true in
  let rows := parseCSVRows csvString delimiter in
  if skipEmptyLines then filter (fun row => negb (isBlankRow row)) rows
  else rows.

Definition fromCSV (csvString : jsstring) (options : option CSVImportOptions)
  : DataFrame :=
  let hasHeaders := optionOr options hasHeaders true in
  if streq csvString [] || streq (trim csvString) [] then newDataFrame []
  else
    match filteredRowsOf csvString options with
    | [] => newDataFrame []
    | (firstRow :: _) as filteredRows =>
        let columnNames :=
          if hasHeaders then firstRow else syntheticNames firstRow in
        let dataStartIndex := if hasHeaders then 1%nat else 0%nat in
        match columnNames with
        | [] => newDataFrame []
        | _ =>
            let data :=
              map (parseDataRow columnNames)
                  (skipn dataStartIndex filteredRows) in
            match data with
            | [] =>
                let emptyRow :=
                  fold_left (fun emptyRow col => assign emptyRow col VNull)
                            columnNames emptyObject in
                newDataFrame [props emptyRow]
            | _ => newDataFrame data
            end
        end
    end.

(* ================================================================== *)
(** ** Tables the program can build *)

Inductive reachable : DataFrame -> Prop :=
| reach_new rows : reachable (newDataFrame rows)
| reach_select df columnNames df' :
    reachable df -> select df columnNames = Ok df' -> reachable df'
| reach_fromCSV csvString options : reachable (fromCSV csvString options).

(** A number literal for the examples. *)
Definition num (s : string) : jsvalue := VNum (Number_ (str s)).

Definition semicolon : option CSVExportOptions :=
  Some {| export_delimiter := Some (str ";"); includeHeaders := None |}.

Definition keepEmptyLines : option CSVImportOptions :=
  Some {| import_delimiter := None; hasHeaders := None;
          skipEmptyLines := Some false |}.

Definition semicolonImport : option CSVImportOptions :=
  Some {| import_delimiter := Some (str ";"); hasHeaders := None;
          skipEmptyLines := None |}.

(* ================================================================== *)
(** ** Vocabulary of the statements *)

(** The characters that end a field or a row, or open a quoted region. *)
Definition special (delim c : char) : bool :=
  (c =? delim) || (c =? QUOTE) || (c =? LF) || (c =? CR).

Definition plain (delim : char) (s : jsstring) : bool :=
  forallb (fun c => negb (special delim c)) s.

Definition startsWithQuote (s : jsstring) : bool :=
  match s with c :: _ => c =? QUOTE | [] => false end.

(** What the tokenizer does after a row that is followed by the end of the
    text or by a line feed. *)
Definition afterRow (delimiter rest : jsstring) (rows : list (list jsstring))
  : list (list jsstring) :=
  match rest with
  | [] => rows
  | _ :: rest' => parseLoop delimiter rest' rows [] [] false
  end.

(** [encodes delim r f]: the text [r] is a way of writing the field [f],
    either verbatim or between quotes with the inner quotes doubled. *)
Inductive encodes (delim : char) : jsstring -> jsstring -> Prop :=
| enc_plain f : plain delim f = true -> encodes delim f f
| enc_quoted f : encodes delim ([QUOTE] ++ doubleQuotes f ++ [QUOTE]) f.

(** Same column names, same row count, same cells under every column. *)
Definition equivalent (A B : DataFrame) : Prop :=
  getColumnNames A = getColumnNames B /\
  length A = length B /\
  Forall2 (fun a b => Forall (fun c => obj_get a c = obj_get b c)
                             (getColumnNames B))
          (getRows A) (getRows B).

Definition isControl (c : char) : bool :=
  (c <? 32) || ((127 <=? c) && (c <=? 159)).

(** Null, a finite number or a string. *)
Definition plainCell (v : jsvalue) : bool :=
  match v with
  | VNull | VNum (Finite _) | VStr _ => true
  | _ => false
  end.

(** A table whose cells are null, finite numbers or strings and whose
    column names have no control character. *)
Definition plainTable (df : DataFrame) : bool :=
  forallb (fun name => negb (existsb isControl name)) (getColumnNames df)
  && forallb (fun row =>
                forallb (fun name => plainCell (obj_get row name))
                        (getColumnNames df))
             (getRows df).

Fixpoint distinct (l : list jsstring) : bool :=
  match l with
  | [] => true
  | k :: l' => negb (arr_includes l' k) && distinct l'
  end.

(** The digits of a finite number as [Number::toString] expects them:
    decimal digits without a zero in front or at the end; zero has no
    digits, no sign and the point at 0; the value is below the overflow
    threshold. *)
Definition canonical (d : decimal) : bool :=
  forallb isDigit (digits d)
  && streq (dropZeros (digits d)) (digits d)
  && streq (dropZeros (rev (digits d))) (rev (digits d))
  && match digits d with
     | [] => negb (negative d) && (point d =? 0)%Z
     | _ => negb (overflows (digits d) (point d))
     end.

(** A string the inference leaves a string. *)
Definition keptAsString (s : jsstring) : bool :=
  match inferValue s with VStr _ => true | _ => false end.

Definition roundTripCell (v : jsvalue) : bool :=
  match v with
  | VNull => true
  | VNum (Finite d) => canonical d
  | VStr s => keptAsString s
  | _ => false
  end.

Definition nonBlank (s : jsstring) : bool := negb (forallb isWhiteSpace s).

(** The tables the round trip is proved for: the first row has pairwise
    distinct keys; no column is named [__proto__]; no column name holds a
    comma, a quote, LF or CR, and one of them is not blank; every cell
    under a column is null, a finite number or a string the inference
    keeps; every row has a cell that is not null. *)
Definition roundTripTable (rows : list obj) : bool :=
  match rows with
  | [] => true
  | firstRow :: _ =>
      let cols := Object_keys firstRow in
      distinct (map fst firstRow)
      && negb (arr_includes cols PROTO)
      && forallb (plain COMMA) cols
      && existsb nonBlank cols
      && forallb (fun row =>
                    forallb (fun c => roundTripCell (obj_get row c)) cols
                    && existsb (fun c => negb (isNullish (obj_get row c))) cols)
                 rows
  end.

(** The row [assignCells] builds when every assignment defines or
    updates an own property, as it does when no column is named
    [__proto__]. *)
Fixpoint ownCells (columnNames values : list jsstring) (row : obj) : obj :=
  match columnNames with
  | [] => row
  | columnName :: names =>
      let value := match values with v :: _ => v | [] => [] end in
      ownCells names (tl values) (obj_set row columnName (inferValue value))
  end.

(** The field the writer produces for a cell, before quoting. *)
Definition fieldOf (v : jsvalue) : jsstring :=
  if isNullish v then [] else String_ v.

(** The order [Object.keys] gives to a list of distinct keys. *)
Definition keysOrder (ks : list jsstring) : list jsstring :=
  map snd (indexKeys ks) ++ filter isNamedKey ks.

Definition startsWithLF (s : jsstring) : bool :=
  match s with c :: _ => c =? LF | [] => false end.

Definition startsWithDigit (s : jsstring) : bool :=
  match s with c :: _ => isDigit c | [] => false end.

(** The order of the array indices among the keys. *)
Definition byIndex (a b : N * jsstring) : Prop := fst a < fst b.

(** The characters of a written number. *)
Definition numeralChar (c : char) : bool :=
  isDigit c || (c =? 45) || (c =? 43) || (c =? 46) || (c =? 101).

(** Sample tables for the round trip. *)
Definition sampleRows : list obj :=
  [ [(str "name", VStr (str "Alice, Jr.")); (str "age", num "30");
     (str "2024", VStr (str "001")); (str "note", VNull)];
    [(str "name", VStr (str "Bob" ++ [LF] ++ str "Smith" ++ [QUOTE]));
     (str "age", num "-0.5"); (str "2024", num "1.5e-9");
     (str "note", VStr (str " x "))];
    [(str "name", VNull); (str "age", num "12e25"); (str "2024", VNull);
     (str "note", VNull)] ].

Definition numericString : list obj := [[(str "a", VStr (str "1"))]].
Definition nullRow : list obj := [[(str "a", num "1")]; [(str "a", VNull)]].
Definition blankName : list obj := [[(str " ", num "1")]].

(** A value whose number, if it is a finite one, has decimal digits for
    digits. *)
Definition wellFormed (v : jsvalue) : bool :=
  match v with
  | VNum (Finite d) => forallb isDigit (digits d)
  | _ => true
  end.

(** Tables whose text splits back into its fields: the first row has a
    key, no column name holds a comma, a quote, LF or CR, and the cells
    under the columns are well formed. *)
Definition writableTable (rows : list obj) : bool :=
  match rows with
  | [] => false
  | firstRow :: _ =>
      let cols := Object_keys firstRow in
      (0 <? List.length cols)%nat
      && forallb (plain COMMA) cols
      && forallb (fun row => forallb (fun c => wellFormed (obj_get row c)) cols)
                 rows
  end.

(** Import options for a text without a header row. *)
Definition noHeaders : option CSVImportOptions :=
  Some {| import_delimiter := None; hasHeaders := Some false;
          skipEmptyLines := None |}.

(** Rows of strings that need quoting: a comma, quotes, line breaks, an
    empty field and a field of one quote. *)
Definition trickyRows : list (list jsstring) :=
  [ [str "a,b"; [QUOTE]; []];
    [str "line" ++ [CR; LF] ++ str "break"];
    [[]; str "say " ++ [QUOTE] ++ str "hi" ++ [QUOTE]; str " plain "] ].

(* ================================================================== *)
(** * Properties *)

(** ** Strings and lists *)

Lemma streq_eq (a b : jsstring) : streq a b = true <-> a = b.
Proof.
  revert b; induction a as [|x a IH]; intros [|y b]; simpl;
    try (split; [discriminate | discriminate]); try tauto.
  rewrite andb_true_iff, N.eqb_eq, IH.
  split; [intros [-> ->]; reflexivity | intros H; inversion H; auto].
Qed.

Lemma streq_refl (a : jsstring) : streq a a = true.
Proof. apply streq_eq; reflexivity. Qed.

Lemma streq_neq (a b : jsstring) : streq a b = false <-> a <> b.
Proof.
  rewrite <- streq_eq. destruct (streq a b); split; congruence.
Qed.

Lemma arr_includes_In (l : list jsstring) (x : jsstring) :
  arr_includes l x = true <-> In x l.
Proof.
  unfold arr_includes. rewrite existsb_exists. split.
  - intros (y & Hy & E). apply streq_eq in E. now subst.
  - intros H. exists x. split; [assumption | apply streq_refl].
Qed.

(** ** The table container *)

Lemma newDataFrame_data (rows : list obj) : data (newDataFrame rows) = rows.
Proof. destruct rows; reflexivity. Qed.

Lemma newDataFrame_empty (rows : list obj) :
  length (newDataFrame rows) = 0%nat -> width (newDataFrame rows) = 0%nat.
Proof. destruct rows; [reflexivity | discriminate]. Qed.

Lemma select_is_new (df df' : DataFrame) (columnNames : list jsstring) :
  select df columnNames = Ok df' -> exists rows, df' = newDataFrame rows.
Proof.
  unfold select. destruct columnNames as [|c cs]; [discriminate|].
  destruct (verifyColumns (columns df) (c :: cs)); simpl; [|discriminate].
  intros H; inversion H. eauto.
Qed.

Lemma fromCSV_is_new (csvString : jsstring)
  (options : option CSVImportOptions) :
  exists rows, fromCSV csvString options = newDataFrame rows.
Proof.
  unfold fromCSV.
  repeat match goal with
         | |- exists _, (if ?b then _ else _) = _ => destruct b
         | |- exists _, (match ?l with [] => _ | _ :: _ => _ end) = _ =>
             destruct l
         | |- exists rows, newDataFrame ?r = newDataFrame rows =>
             exists r; reflexivity
         end.
Qed.

Lemma reachable_is_new (df : DataFrame) :
  reachable df -> exists rows, df = newDataFrame rows.
Proof.
  intros [rows | d names d' _ Hs | s o].
  - eauto.
  - eapply select_is_new; eassumption.
  - apply fromCSV_is_new.
Qed.

(** C9.  A table the program can build (by the constructor, by [select] or
    by [fromCSV]) that has zero rows has zero columns. *)
Theorem zero_rows_zero_columns (df : DataFrame) :
  reachable df -> length df = 0%nat -> width df = 0%nat.
Proof.
  intros Hr. destruct (reachable_is_new df Hr) as [rows ->].
  apply newDataFrame_empty.
Qed.

Lemma zero_rows_zero_columns_witness : width (fromCSV [] None) = 0%nat.
Proof.
  apply (zero_rows_zero_columns (fromCSV [] None)).
  - apply reach_fromCSV.
  - reflexivity.
Defined.

(** A file with headers only keeps its columns through one all-null row. *)
Example headers_only :
  fromCSV (str "name,age,city") None =
  newDataFrame [[(str "name", VNull); (str "age", VNull); (str "city", VNull)]].
Proof. reflexivity. Qed.

(** ** Column-addressed operations *)

Lemma verifyColumns_unknown (cols names : list jsstring) (name : jsstring) :
  In name names -> ~ In name cols ->
  exists missing, verifyColumns cols names = Err (UnknownColumn missing)
                  /\ ~ In missing cols.
Proof.
  induction names as [|c rest IH]; simpl; [tauto|].
  intros Hin Hnot.
  destruct (arr_includes cols c) eqn:E.
  - destruct Hin as [->|Hin].
    + apply arr_includes_In in E. contradiction.
    + auto.
  - exists c. split; [reflexivity|].
    intros Hc. apply arr_includes_In in Hc. congruence.
Qed.

Lemma select_unknown (df : DataFrame) (names : list jsstring)
  (name : jsstring) :
  In name names -> ~ In name (columns df) ->
  exists missing, select df names = Err (UnknownColumn missing)
                  /\ ~ In missing (columns df).
Proof.
  intros Hin Hnot. unfold select.
  destruct names as [|c cs]; [destruct Hin|].
  destruct (verifyColumns_unknown (columns df) (c :: cs) name Hin Hnot)
    as (missing & -> & Hm).
  exists missing. split; [reflexivity | assumption].
Qed.

(** For a name that is not a column, the three type checks and the seven
    null and NaN checks all report the unknown column, by that name. *)
Lemma unknown_column_checks (df : DataFrame) (name : jsstring) :
  ~ In name (columns df) ->
  isNumeric df name = Err (UnknownColumn name) /\
  isString df name = Err (UnknownColumn name) /\
  getColumnType df name = Err (UnknownColumn name) /\
  isNull df name = Err (UnknownColumn name) /\
  isNaN df name = Err (UnknownColumn name) /\
  notNull df name = Err (UnknownColumn name) /\
  hasNull df name = Err (UnknownColumn name) /\
  hasNaN df name = Err (UnknownColumn name) /\
  countNull df name = Err (UnknownColumn name) /\
  countNaN df name = Err (UnknownColumn name).
Proof.
  intros Hnot.
  assert (E : arr_includes (getColumnNames df) name = false).
  { destruct (arr_includes (getColumnNames df) name) eqn:E; [|reflexivity].
    apply arr_includes_In in E. contradiction. }
  unfold notNull, hasNull, hasNaN, countNull, countNaN,
    isNumeric, isString, getColumnType, isNull, isNaN.
  rewrite E. simpl. repeat split; reflexivity.
Qed.

Lemma unknown_column_checks_witness :
  countNull (fromCSV (str "a" ++ [LF] ++ str "1") None) (str "b")
  = Err (UnknownColumn (str "b")).
Proof.
  apply (unknown_column_checks (fromCSV (str "a" ++ [LF] ++ str "1") None)
                               (str "b")).
  vm_compute. intros [H | []]. discriminate H.
Defined.

Lemma getColumn_known (df : DataFrame) (name : jsstring) :
  getColumn df name = map (fun row => obj_get row name) (getRows df).
Proof. reflexivity. Qed.

(** C6.  On the table read from the text [a LF 1 LF 2] and the name [b],
    which is not a column, [getColumn] returns one [undefined] per row
    where [select] and [isNumeric] report the unknown column. *)
Theorem getColumn_unknown_column :
  let df := fromCSV (str "a" ++ [LF] ++ str "1" ++ [LF] ++ str "2") None in
  getColumnNames df = [str "a"] /\
  getColumn df (str "a") = [num "1"; num "2"] /\
  getColumn df (str "b") = [VUndefined; VUndefined] /\
  select df [str "b"] = Err (UnknownColumn (str "b")) /\
  isNumeric df (str "b") = Err (UnknownColumn (str "b")).
Proof. repeat split. Qed.

(** ** Column types *)

Lemma scanColumn_nullish (ok : jsvalue -> bool) (rows : list obj)
  (name : jsstring) :
  forallb (fun row => isNullish (obj_get row name)) rows = true ->
  scanColumn ok rows name = true.
Proof.
  induction rows as [|row rest IH]; simpl; [reflexivity|].
  rewrite andb_true_iff. intros [-> H]. auto.
Qed.

(** C10.  In a table with at least one row, an existing column whose
    cells are all [null] or [undefined] passes both [isNumeric] and
    [isString], and [getColumnType] answers [mixed]. *)
Theorem all_nullish_column_is_mixed (df : DataFrame) (columnName : jsstring) :
  (0 < length df)%nat ->
  arr_includes (getColumnNames df) columnName = true ->
  forallb (fun row => isNullish (obj_get row columnName)) (getRows df) = true ->
  isNumeric df columnName = Ok true /\
  isString df columnName = Ok true /\
  getColumnType df columnName = Ok TMixed.
Proof.
  intros Hlen Hcol Hnull.
  assert (Hn : isNumeric df columnName = Ok true).
  { unfold isNumeric. rewrite Hcol. cbn [negb].
    unfold length, getRows in *. destruct (data df); [simpl in Hlen; lia|].
    cbv beta iota. now rewrite (scanColumn_nullish _ _ _ Hnull). }
  assert (Hs : isString df columnName = Ok true).
  { unfold isString. rewrite Hcol. cbn [negb].
    unfold length, getRows in *. destruct (data df); [simpl in Hlen; lia|].
    cbv beta iota. now rewrite (scanColumn_nullish _ _ _ Hnull). }
  repeat split; try assumption.
  unfold getColumnType. rewrite Hcol, Hn, Hs. simpl.
  unfold length, getRows in *. destruct (data df); [simpl in Hlen; lia|].
  reflexivity.
Qed.

Lemma all_nullish_column_is_mixed_witness :
  let df := newDataFrame [[(str "a", VNull); (str "b", num "1")];
                          [(str "a", VUndefined); (str "b", num "2")]] in
  isNumeric df (str "a") = Ok true /\
  isString df (str "a") = Ok true /\
  getColumnType df (str "a") = Ok TMixed.
Proof.
  apply (all_nullish_column_is_mixed
           (newDataFrame [[(str "a", VNull); (str "b", num "1")];
                          [(str "a", VUndefined); (str "b", num "2")]])
           (str "a")).
  - unfold length. simpl. lia.
  - reflexivity.
  - reflexivity.
Defined.

(** ** The tokenizer on its own *)

Lemma finishRows_always (rows : list (list jsstring))
  (currentRow : list jsstring) (current : jsstring) :
  finishRows rows currentRow current = rows ++ [currentRow ++ [current]].
Proof.
  unfold finishRows.
  replace (0 <? List.length (currentRow ++ [current]))%nat with true;
    [reflexivity|].
  symmetry. apply Nat.ltb_lt. rewrite length_app. simpl. lia.
Qed.

(** C2.  With the terminator CR LF the carriage return stays in the last
    field of the row: [a,b CR LF c,d] parses to the rows [a], [b CR] and
    [c], [d], while LF alone and CR alone give [a], [b] and [c], [d].  Read
    with [fromCSV], a text with CR LF has the column name [age CR]. *)
Theorem crlf_keeps_carriage_return :
  parseCSVRows (str "a,b" ++ [CR; LF] ++ str "c,d") [COMMA]
  = [[str "a"; str "b" ++ [CR]]; [str "c"; str "d"]] /\
  parseCSVRows (str "a,b" ++ [LF] ++ str "c,d") [COMMA]
  = [[str "a"; str "b"]; [str "c"; str "d"]] /\
  parseCSVRows (str "a,b" ++ [CR] ++ str "c,d") [COMMA]
  = [[str "a"; str "b"]; [str "c"; str "d"]] /\
  getColumnNames
    (fromCSV (str "name,age" ++ [CR; LF] ++ str "Alice,30" ++ [CR; LF]
              ++ str "Bob,25") None)
  = [str "name"; str "age" ++ [CR]].
Proof. repeat split. Qed.

(** C5.  The text [a,b LF], which ends in a row terminator, parses to the
    row [a], [b] followed by a row holding one empty field; the empty text
    parses to that one row alone.  With [skipEmptyLines] off, [fromCSV]
    turns the extra row of [a,b LF 1,2 LF] into a second data row. *)
Theorem trailing_terminator_adds_row :
  parseCSVRows (str "a,b" ++ [LF]) [COMMA] = [[str "a"; str "b"]; [[]]] /\
  parseCSVRows [] [COMMA] = [[[]]] /\
  getRows (fromCSV (str "a,b" ++ [LF] ++ str "1,2" ++ [LF]) keepEmptyLines)
  = [[(str "a", num "1"); (str "b", num "2")];
     [(str "a", VNull); (str "b", VNull)]].
Proof. repeat split. Qed.

(** ** The writer on its own *)

Lemma headerLine_verbatim (cols : list jsstring) (delimiter : jsstring) :
  headerLine cols delimiter = join delimiter cols.
Proof.
  unfold headerLine. f_equal.
  rewrite <- (map_id cols) at 2. apply map_ext. reflexivity.
Qed.

(** C3.  With the delimiter [;] the cell [a;b] is written without quotes,
    and reading the text back with the same delimiter yields the cell [a]. *)
Theorem escape_ignores_delimiter :
  let df := newDataFrame [[(str "x", VStr (str "a;b"))]] in
  toCSV df semicolon = str "x" ++ [LF] ++ str "a;b" /\
  fromCSV (toCSV df semicolon) semicolonImport
  = newDataFrame [[(str "x", VStr (str "a"))]].
Proof. split; reflexivity. Qed.

(** C4.  The column name [a,b] is written without quotes, and the text
    reads back as the two columns [a] and [b]. *)
Theorem header_not_escaped :
  let df := newDataFrame [[(str "a,b", num "1")]] in
  toCSV df None = str "a,b" ++ [LF] ++ str "1" /\
  getColumnNames (fromCSV (toCSV df None) None) = [str "a"; str "b"].
Proof. split; reflexivity. Qed.

(** ** The tokenizer on written fields *)

Section Tokenizer.

Local Arguments N.eqb : simpl never.

Variable dc : char.

Lemma step_plain c rest rows cr cur :
  special dc c = false ->
  parseLoop [dc] (c :: rest) rows cr cur false
  = parseLoop [dc] rest rows cr (cur ++ [c]) false.
Proof.
  unfold special. intros H.
  apply orb_false_iff in H as [H Hcr].
  apply orb_false_iff in H as [H Hlf].
  apply orb_false_iff in H as [Hd Hq].
  simpl. rewrite Hq, Hd, Hlf, Hcr. reflexivity.
Qed.

Lemma step_quoted c rest rows cr cur delim :
  (c =? QUOTE) = false ->
  parseLoop delim (c :: rest) rows cr cur true
  = parseLoop delim rest rows cr (cur ++ [c]) true.
Proof.
  intros Hq. simpl. rewrite Hq. rewrite !andb_false_r. reflexivity.
Qed.

Lemma step_doubled rest rows cr cur delim :
  parseLoop delim (QUOTE :: QUOTE :: rest) rows cr cur true
  = parseLoop delim rest rows cr (cur ++ [QUOTE]) true.
Proof. reflexivity. Qed.

Lemma step_close rest rows cr cur delim :
  startsWithQuote rest = false ->
  parseLoop delim (QUOTE :: rest) rows cr cur true
  = parseLoop delim rest rows cr cur false.
Proof.
  intros H. destruct rest as [|c rest]; [reflexivity|].
  simpl in *. rewrite H. reflexivity.
Qed.

Lemma step_open rest rows cr cur delim :
  parseLoop delim (QUOTE :: rest) rows cr cur false
  = parseLoop delim rest rows cr cur true.
Proof. reflexivity. Qed.

Hypothesis dc_quote : (dc =? QUOTE) = false.
Hypothesis dc_lf : (dc =? LF) = false.

Lemma step_delimiter rest rows cr cur :
  parseLoop [dc] (dc :: rest) rows cr cur false
  = parseLoop [dc] rest rows (cr ++ [cur]) [] false.
Proof. simpl. rewrite dc_quote, N.eqb_refl. reflexivity. Qed.

Lemma step_newline rest rows cr cur :
  parseLoop [dc] (LF :: rest) rows cr cur false
  = parseLoop [dc] rest (rows ++ [cr ++ [cur]]) [] [] false.
Proof.
  simpl. rewrite N.eqb_sym in dc_lf. rewrite dc_lf. reflexivity.
Qed.

Lemma run_plain f rest rows cr cur :
  plain dc f = true ->
  parseLoop [dc] (f ++ rest) rows cr cur false
  = parseLoop [dc] rest rows cr (cur ++ f) false.
Proof.
  revert cur. induction f as [|c f IH]; intros cur H.
  - now rewrite app_nil_r.
  - simpl in H. apply andb_true_iff in H as [Hc Hf].
    apply negb_true_iff in Hc.
    rewrite <- app_comm_cons, step_plain by assumption.
    rewrite IH by assumption. now rewrite <- app_assoc.
Qed.

Lemma run_quoted f rest rows cr cur delim :
  startsWithQuote rest = false ->
  parseLoop delim (doubleQuotes f ++ QUOTE :: rest) rows cr cur true
  = parseLoop delim rest rows cr (cur ++ f) false.
Proof.
  intros Hrest. revert cur. induction f as [|c f IH]; intros cur.
  - simpl app. rewrite step_close by assumption. now rewrite app_nil_r.
  - simpl doubleQuotes. destruct (c =? QUOTE) eqn:E.
    + apply N.eqb_eq in E. subst c.
      rewrite <- !app_comm_cons, step_doubled, IH. now rewrite <- app_assoc.
    + rewrite <- app_comm_cons, step_quoted by assumption.
      rewrite IH. now rewrite <- app_assoc.
Qed.

Lemma run_field r f rest rows cr :
  encodes dc r f -> startsWithQuote rest = false ->
  parseLoop [dc] (r ++ rest) rows cr [] false
  = parseLoop [dc] rest rows cr f false.
Proof.
  intros [g Hg | g] Hrest.
  - now rewrite run_plain.
  - rewrite <- !app_assoc. simpl app. rewrite step_open.
    now rewrite run_quoted.
Qed.

Lemma run_row rs fs rest rows cr :
  Forall2 (encodes dc) rs fs -> rs <> [] ->
  (rest = [] \/ exists rest', rest = LF :: rest') ->
  parseLoop [dc] (join [dc] rs ++ rest) rows cr [] false
  = afterRow [dc] rest (rows ++ [cr ++ fs]).
Proof.
  intros H. revert cr.
  induction H as [|r f rs fs Hrf Hrest IH]; intros cr Hne Hend.
  - congruence.
  - destruct rs as [|r' rs].
    + inversion Hrest; subst. simpl join.
      assert (Hq : startsWithQuote rest = false)
        by (destruct Hend as [-> | [rest' ->]]; reflexivity).
      rewrite (run_field r f rest rows cr Hrf Hq).
      destruct Hend as [-> | [rest' ->]]; simpl afterRow.
      * simpl. apply finishRows_always.
      * apply step_newline.
    + change (join [dc] (r :: r' :: rs))
        with (r ++ [dc] ++ join [dc] (r' :: rs)).
      rewrite <- !app_assoc.
      rewrite (run_field r f _ rows cr Hrf) by (simpl; assumption).
      simpl app. rewrite step_delimiter.
      rewrite IH; [|discriminate|assumption].
      now rewrite <- app_assoc.
Qed.

Lemma run_lines rss fss rows :
  Forall2 (Forall2 (encodes dc)) rss fss ->
  Forall (fun rs => rs <> []) rss -> rss <> [] ->
  parseLoop [dc] (join [LF] (map (join [dc]) rss)) rows [] [] false
  = rows ++ fss.
Proof.
  intros H. revert rows.
  induction H as [|rs fs rss fss Hrow Hrest IH]; intros rows Hne Hnn.
  - congruence.
  - inversion Hne as [|? ? Hrs Hrss]; subst.
    destruct rss as [|rs' rss].
    + inversion Hrest; subst. simpl.
      rewrite <- (app_nil_r (join [dc] rs)).
      rewrite (run_row rs fs [] rows [] Hrow Hrs) by (left; reflexivity).
      reflexivity.
    + change (join [LF] (map (join [dc]) (rs :: rs' :: rss)))
        with (join [dc] rs ++ [LF] ++ join [LF] (map (join [dc]) (rs' :: rss))).
      rewrite (run_row rs fs _ rows [] Hrow Hrs)
        by (right; eexists; reflexivity).
      simpl afterRow. rewrite IH; [|assumption|discriminate].
      now rewrite <- app_assoc.
Qed.

End Tokenizer.

(** ** Row objects *)

Lemma obj_get_set_same (o : obj) (k : jsstring) (v : jsvalue) :
  obj_get (obj_set o k v) k = v.
Proof.
  induction o as [|[k' v'] o IH]; simpl.
  - now rewrite streq_refl.
  - destruct (streq k k') eqn:E; simpl; rewrite E; auto.
Qed.

Lemma obj_get_set_other (o : obj) (k k' : jsstring) (v : jsvalue) :
  k <> k' -> obj_get (obj_set o k v) k' = obj_get o k'.
Proof.
  intros Hne. induction o as [|[k0 v0] o IH]; simpl.
  - apply not_eq_sym in Hne. apply streq_neq in Hne. now rewrite Hne.
  - destruct (streq k k0) eqn:E; simpl.
    + apply streq_eq in E. subst k0.
      apply not_eq_sym in Hne. apply streq_neq in Hne. now rewrite Hne.
    + now rewrite IH.
Qed.

Lemma obj_set_keys (o : obj) (k c : jsstring) (v : jsvalue) :
  In k (map fst (obj_set o c v)) <-> In k (map fst o) \/ k = c.
Proof.
  induction o as [|[k0 v0] o IH]; simpl.
  - intuition.
  - destruct (streq c k0) eqn:E; simpl.
    + apply streq_eq in E. subst k0. intuition.
    + rewrite IH. intuition.
Qed.

Lemma obj_set_fresh (o : obj) (k : jsstring) (v : jsvalue) :
  ~ In k (map fst o) -> obj_set o k v = o ++ [(k, v)].
Proof.
  induction o as [|[k0 v0] o IH]; simpl; intros Hn; [reflexivity|].
  destruct (streq k k0) eqn:E.
  - apply streq_eq in E. subst. tauto.
  - rewrite IH; tauto.
Qed.

Lemma obj_get_app_fresh (o : obj) (k : jsstring) (v : jsvalue) :
  ~ In k (map fst o) -> obj_get (o ++ [(k, v)]) k = v.
Proof.
  intros Hn. rewrite <- obj_set_fresh by assumption. apply obj_get_set_same.
Qed.

(** ** Trimming *)

Lemma trimStart_nil_iff (s : jsstring) :
  trimStart s = [] <-> forallb isWhiteSpace s = true.
Proof.
  induction s as [|c s IH]; simpl; [tauto|].
  destruct (isWhiteSpace c); simpl; [assumption|].
  split; discriminate.
Qed.

Lemma trimStart_all (s : jsstring) :
  forallb isWhiteSpace (trimStart s) = forallb isWhiteSpace s.
Proof.
  induction s as [|c s IH]; simpl; [reflexivity|].
  destruct (isWhiteSpace c) eqn:E; simpl; [assumption | now rewrite E].
Qed.

Lemma forallb_rev {A} (f : A -> bool) (l : list A) :
  forallb f (rev l) = forallb f l.
Proof.
  induction l as [|x l IH]; simpl; [reflexivity|].
  rewrite forallb_app, IH. simpl. rewrite andb_true_r. apply andb_comm.
Qed.

Lemma trim_nil_iff (s : jsstring) :
  trim s = [] <-> forallb isWhiteSpace s = true.
Proof.
  unfold trim. split.
  - intros H. apply (f_equal (@rev _)) in H. rewrite rev_involutive in H.
    simpl in H. apply trimStart_nil_iff in H.
    now rewrite forallb_rev, trimStart_all in H.
  - intros H.
    assert (E : trimStart (rev (trimStart s)) = []).
    { apply trimStart_nil_iff. now rewrite forallb_rev, trimStart_all. }
    now rewrite E.
Qed.

Lemma streq_trim_nil (s : jsstring) :
  streq (trim s) [] = forallb isWhiteSpace s.
Proof.
  destruct (forallb isWhiteSpace s) eqn:E.
  - apply trim_nil_iff in E. now rewrite E.
  - apply streq_neq. intros H. apply trim_nil_iff in H. congruence.
Qed.

Lemma streq_nil (s : jsstring) :
  streq s [] = match s with [] => true | _ => false end.
Proof. destruct s; reflexivity. Qed.

(** ** The inference on one field *)

Lemma hasLeadingZeros_head (s : jsstring) :
  hasLeadingZeros s = true ->
  exists c rest, s = c :: rest /\ (c = 45 \/ c = 48).
Proof.
  unfold hasLeadingZeros, scanSign. destruct s as [|c rest]; [discriminate|].
  intros H. exists c, rest. split; [reflexivity|].
  destruct (c =? 45) eqn:E.
  - apply N.eqb_eq in E. auto.
  - simpl in H. apply andb_true_iff in H as [H _]. apply N.eqb_eq in H. auto.
Qed.

Lemma inferValue_leading_zeros (field : jsstring) :
  hasLeadingZeros (trim field) = true -> inferValue field = VStr field.
Proof.
  intros H. unfold inferValue. rewrite H.
  destruct (hasLeadingZeros_head _ H) as (c & rest & E & Hc).
  rewrite E. rewrite andb_false_r.
  destruct Hc as [-> | ->]; reflexivity.
Qed.

(** ** Building a data row *)

Lemma inferValue_empty : inferValue [] = VNull.
Proof. reflexivity. Qed.

Lemma In_dec_str (k : jsstring) (l : list jsstring) : In k l \/ ~ In k l.
Proof.
  destruct (arr_includes l k) eqn:E.
  - left. now apply arr_includes_In.
  - right. intros H. apply arr_includes_In in H. congruence.
Qed.

Lemma ownCells_other (cols vals : list jsstring) (row : obj) (k : jsstring) :
  ~ In k cols -> obj_get (ownCells cols vals row) k = obj_get row k.
Proof.
  revert vals row. induction cols as [|c cs IH]; intros vals row Hn.
  - reflexivity.
  - simpl. rewrite IH by (simpl in Hn; tauto).
    apply obj_get_set_other. simpl in Hn. intros ->. tauto.
Qed.

Lemma ownCells_blank (cols vals : list jsstring) (row : obj) (c : jsstring) :
  Forall (eq []) vals -> In c cols ->
  obj_get (ownCells cols vals row) c = VNull.
Proof.
  revert vals row. induction cols as [|c0 cs IH]; intros vals row Hv Hin.
  - destruct Hin.
  - simpl.
    assert (Hhd : match vals with v :: _ => v | [] => [] end = []).
    { destruct Hv; [reflexivity | now subst]. }
    assert (Htl : Forall (eq []) (tl vals)).
    { destruct Hv; [constructor | assumption]. }
    rewrite Hhd. destruct (In_dec_str c cs) as [Hc | Hc].
    + now apply IH.
    + rewrite ownCells_other by assumption.
      destruct Hin as [-> | Hin]; [|contradiction].
      rewrite obj_get_set_same. reflexivity.
Qed.

Lemma ownCells_short (cols vals extra : list jsstring) (row : obj)
  (c : jsstring) :
  Forall (eq []) extra -> In c (skipn (List.length vals) cols) ->
  obj_get (ownCells cols (vals ++ extra) row) c = VNull.
Proof.
  intros He. revert cols row. induction vals as [|v vs IH]; intros cols row Hin.
  - simpl in *. now apply ownCells_blank.
  - destruct cols as [|c0 cs]; [destruct Hin|].
    simpl in *. now apply IH.
Qed.

Lemma assignCells_firstn (cols vals : list jsstring) (row : literal) :
  assignCells cols vals row
  = assignCells cols (firstn (List.length cols) vals) row.
Proof.
  revert vals row. induction cols as [|c cs IH]; intros vals row.
  - reflexivity.
  - destruct vals as [|v vs]; simpl; [reflexivity|]. apply IH.
Qed.

Lemma ownCells_keys (cols vals : list jsstring) (row : obj) (k : jsstring) :
  In k (map fst (ownCells cols vals row))
  <-> In k (map fst row) \/ In k cols.
Proof.
  revert vals row. induction cols as [|c cs IH]; intros vals row; simpl.
  - tauto.
  - rewrite IH, obj_set_keys. intuition.
Qed.

Lemma ownCells_fresh (cols vals : list jsstring) (row : obj) :
  NoDup cols -> (forall c, In c cols -> ~ In c (map fst row)) ->
  map fst (ownCells cols vals row) = map fst row ++ cols.
Proof.
  intros Hnd. revert vals row.
  induction Hnd as [|c cs Hc Hnd IH]; intros vals row Hfresh; simpl.
  - now rewrite app_nil_r.
  - rewrite IH.
    + rewrite obj_set_fresh by (apply Hfresh; now left).
      rewrite map_app. simpl. now rewrite <- app_assoc.
    + intros c' Hin Hk. apply obj_set_keys in Hk as [Hk | ->].
      * apply (Hfresh c'); [now right | assumption].
      * contradiction.
Qed.

(** Assignments to an object made by [{}]. *)

Lemma assign_own (o : literal) (k : jsstring) (v : jsvalue) :
  streq PROTO k = false ->
  assign o k v = mkLiteral (obj_set (props o) k v) (inherits o).
Proof. intros H. unfold assign. now rewrite H. Qed.

Lemma assign_get_other (o : literal) (k c : jsstring) (v : jsvalue) :
  k <> c -> obj_get (props (assign o k v)) c = obj_get (props o) c.
Proof.
  intros H. unfold assign.
  destruct (streq PROTO k && inherits o
            && negb (arr_includes (map fst (props o)) k)).
  - destruct v; reflexivity.
  - now apply obj_get_set_other.
Qed.

Lemma assignCells_get_other (cols vals : list jsstring) (row : literal)
  (k : jsstring) :
  ~ In k cols ->
  obj_get (props (assignCells cols vals row)) k = obj_get (props row) k.
Proof.
  revert vals row. induction cols as [|c cs IH]; intros vals row Hn.
  - reflexivity.
  - simpl. rewrite IH by (simpl in Hn; tauto).
    apply assign_get_other. simpl in Hn. tauto.
Qed.

Lemma assignCells_own (cols vals : list jsstring) (row : literal) :
  arr_includes cols PROTO = false ->
  assignCells cols vals row
  = mkLiteral (ownCells cols vals (props row)) (inherits row).
Proof.
  revert vals row. induction cols as [|c cs IH]; intros vals row H.
  - now destruct row.
  - cbn [arr_includes existsb] in H. apply orb_false_iff in H as [Hc Hcs].
    cbn [assignCells ownCells]. cbv zeta.
    rewrite (assign_own _ _ _ Hc). now rewrite IH by exact Hcs.
Qed.

Lemma parseDataRow_own (cols vals : list jsstring) :
  arr_includes cols PROTO = false ->
  parseDataRow cols vals = ownCells cols (padValues vals (List.length cols)) [].
Proof.
  intros H. unfold parseDataRow. cbv zeta. now rewrite assignCells_own.
Qed.

Lemma parseDataRow_drops_extra (columnNames rowValues : list jsstring) :
  parseDataRow columnNames rowValues
  = parseDataRow columnNames (firstn (List.length columnNames) rowValues).
Proof.
  unfold parseDataRow, padValues.
  destruct (Nat.le_gt_cases (List.length columnNames) (List.length rowValues))
    as [Hle | Hgt].
  - rewrite length_firstn, Nat.min_l by assumption.
    replace (List.length columnNames - List.length rowValues)%nat with 0%nat
      by lia.
    rewrite Nat.sub_diag. simpl. rewrite !app_nil_r.
    f_equal. apply assignCells_firstn.
  - rewrite firstn_all2 by lia. reflexivity.
Qed.

(** The data rows of a text with a header row and at least one more row. *)
Lemma fromCSV_data_rows (csvString : jsstring)
  (options : option CSVImportOptions) (header : list jsstring)
  (dataRows : list (list jsstring)) :
  streq csvString [] || streq (trim csvString) [] = false ->
  optionOr options hasHeaders true = true ->
  filteredRowsOf csvString options = header :: dataRows ->
  header <> [] -> dataRows <> [] ->
  fromCSV csvString options = newDataFrame (map (parseDataRow header) dataRows).
Proof.
  intros Hblank Hh Hrows Hhd Hd. unfold fromCSV.
  rewrite Hblank, Hrows, Hh.
  destruct header as [|h hs]; [congruence|].
  destruct dataRows as [|r rs]; [congruence|]. reflexivity.
Qed.

Lemma comma_quote : (COMMA =? QUOTE) = false.
Proof. reflexivity. Qed.

Lemma comma_lf : (COMMA =? LF) = false.
Proof. reflexivity. Qed.

(** The tokenizer undoes the writing of rows of fields, line by line. *)
Lemma parseCSVRows_written (rss fss : list (list jsstring)) :
  Forall2 (Forall2 (encodes COMMA)) rss fss ->
  Forall (fun rs => rs <> []) rss -> rss <> [] ->
  parseCSVRows (join [LF] (map (join [COMMA]) rss)) [COMMA] = fss.
Proof.
  intros H Hne Hnn. unfold parseCSVRows.
  now rewrite (run_lines COMMA comma_quote comma_lf rss fss [] H Hne Hnn).
Qed.

(** C7.  A field whose trimmed text is an optional minus sign, one or
    more zeros and then a nonzero digit is kept as the string it is, by the
    inference and so by [fromCSV] (here for a one-column text); the fields
    [0] and [0.5] become the numbers 0 and 0.5. *)
Theorem leading_zero_numerals_stay_strings :
  (forall field : jsstring,
     hasLeadingZeros (trim field) = true ->
     inferValue field = VStr field /\
     (plain COMMA field = true ->
      fromCSV (str "id" ++ [LF] ++ field) None
      = newDataFrame [[(str "id", VStr field)]])) /\
  fromCSV (str "v" ++ [LF] ++ str "0" ++ [LF] ++ str "0.5") None
  = newDataFrame [[(str "v", VNum (Finite (Decimal false [] 0)))];
                  [(str "v", VNum (Finite (Decimal false (str "5") 0)))]].
Proof.
  split; [|reflexivity].
  intros field H. pose proof (inferValue_leading_zeros field H) as Hinf.
  split; [assumption|]. intros Hplain.
  assert (Hnb : streq (trim field) [] = false).
  { destruct (hasLeadingZeros_head _ H) as (c & rest & -> & _). reflexivity. }
  rewrite (fromCSV_data_rows _ None [str "id"] [[field]]).
  - unfold parseDataRow, padValues. simpl. now rewrite Hinf.
  - change (str "id" ++ [LF] ++ field) with (105 :: 100 :: 10 :: field).
    rewrite streq_trim_nil. reflexivity.
  - reflexivity.
  - unfold filteredRowsOf. cbn [optionOr].
    change (str "id" ++ [LF] ++ field)
      with (join [LF] (map (join [COMMA]) [[str "id"]; [field]])).
    rewrite (parseCSVRows_written [[str "id"]; [field]] [[str "id"]; [field]]).
    + simpl. unfold isBlankRow at 1. simpl existsb. rewrite Hnb. reflexivity.
    + repeat constructor; assumption.
    + repeat constructor; discriminate.
    + discriminate.
  - discriminate.
  - discriminate.
Qed.

Lemma leading_zero_numerals_stay_strings_witness :
  inferValue (str "001") = VStr (str "001") /\
  fromCSV (str "id" ++ [LF] ++ str "001") None
  = newDataFrame [[(str "id", VStr (str "001"))]].
Proof.
  destruct (proj1 leading_zero_numerals_stay_strings (str "001"))
    as [Hinf Hcsv].
  - reflexivity.
  - split; [exact Hinf | apply Hcsv; reflexivity].
Defined.

(** C8.  Under the header [a,__proto__,c] the row [x,y,z,extra] is built
    with the two columns [a] and [c], and under the header [a,__proto__]
    the short row [x] with the one column [a]: the assignment under the
    name [__proto__] defines no property, so the row built does not have
    the header's columns.  Under the header [a,b,c] the same rows get
    three columns, the missing one null. *)
Theorem proto_header_loses_column :
  let long := fromCSV (str "a,__proto__,c" ++ [LF] ++ str "x,y,z,extra") None in
  let short := fromCSV (str "a,__proto__" ++ [LF] ++ str "x") None in
  let ordinary := fromCSV (str "a,b,c" ++ [LF] ++ str "x,y,z,extra" ++ [LF]
                           ++ str "x") None in
  getRows long = [[(str "a", VStr (str "x")); (str "c", VStr (str "z"))]] /\
  getColumnNames long = [str "a"; str "c"] /\
  getRows short = [[(str "a", VStr (str "x"))]] /\
  getColumn short (str "__proto__") = [VUndefined] /\
  getRows ordinary
  = [[(str "a", VStr (str "x")); (str "b", VStr (str "y"));
      (str "c", VStr (str "z"))];
     [(str "a", VStr (str "x")); (str "b", VNull); (str "c", VNull)]].
Proof. repeat split. Qed.

(** In a text with a header row that does not hold the name [__proto__],
    every data row is reconciled with the header: the columns past the
    end of a short row are [null], the fields past the header's width are
    dropped, and the row built has the header's names as its keys. *)
Theorem ragged_rows_reconciled (csvString : jsstring)
  (options : option CSVImportOptions) (header : list jsstring)
  (dataRows : list (list jsstring)) :
  streq csvString [] || streq (trim csvString) [] = false ->
  optionOr options hasHeaders true = true ->
  filteredRowsOf csvString options = header :: dataRows ->
  (0 < List.length header)%nat -> (0 < List.length dataRows)%nat ->
  arr_includes header PROTO = false ->
  getRows (fromCSV csvString options) = map (parseDataRow header) dataRows /\
  forall rowValues : list jsstring,
    (forall c, In c (skipn (List.length rowValues) header) ->
               obj_get (parseDataRow header rowValues) c = VNull) /\
    parseDataRow header rowValues
    = parseDataRow header (firstn (List.length header) rowValues) /\
    (forall k,
       In k (map fst (parseDataRow header rowValues)) <-> In k header) /\
    (NoDup header -> map fst (parseDataRow header rowValues) = header).
Proof.
  intros Hblank Hh Hrows Hhd Hd Hproto. split.
  - rewrite (fromCSV_data_rows csvString options header dataRows);
      try assumption.
    + unfold getRows. apply newDataFrame_data.
    + intros ->. simpl in Hhd. lia.
    + intros ->. simpl in Hd. lia.
  - intros rowValues. repeat split.
    + intros c Hc. rewrite parseDataRow_own by assumption. unfold padValues.
      apply ownCells_short; [|assumption].
      apply Forall_forall. intros x Hx. apply repeat_spec in Hx. congruence.
    + apply parseDataRow_drops_extra.
    + intros Hk. rewrite parseDataRow_own in Hk by assumption.
      apply ownCells_keys in Hk. simpl in Hk. tauto.
    + intros Hk. rewrite parseDataRow_own by assumption.
      apply ownCells_keys. now right.
    + intros Hnd. rewrite parseDataRow_own by assumption.
      rewrite ownCells_fresh; [reflexivity | assumption | simpl; tauto].
Qed.

Lemma ragged_rows_reconciled_witness :
  getRows (fromCSV (str "a,b,c" ++ [LF] ++ str "x,y" ++ [LF]
                    ++ str "x,y,z,extra") None)
  = [[(str "a", VStr (str "x")); (str "b", VStr (str "y")); (str "c", VNull)];
     [(str "a", VStr (str "x")); (str "b", VStr (str "y"));
      (str "c", VStr (str "z"))]].
Proof.
  apply (proj1 (ragged_rows_reconciled
                  (str "a,b,c" ++ [LF] ++ str "x,y" ++ [LF]
                   ++ str "x,y,z,extra") None
                  [str "a"; str "b"; str "c"]
                  [[str "x"; str "y"];
                   [str "x"; str "y"; str "z"; str "extra"]]
                  eq_refl eq_refl eq_refl
                  ltac:(simpl; lia) ltac:(simpl; lia) eq_refl)).
Defined.

(** ** The order of the keys *)

Lemma arrayIndex_Some (k : jsstring) (i : N) :
  arrayIndex k = Some i -> i = digitsValue k /\ k = digitsOfN i.
Proof.
  unfold arrayIndex. destruct (List.length k <=? 10)%nat; [|discriminate].
  destruct (streq (digitsOfN (digitsValue k)) k) eqn:E; simpl; [|discriminate].
  destruct (digitsValue k <=? 4294967294); [|discriminate].
  intros H. inversion H. subst. apply streq_eq in E. auto.
Qed.

Lemma insertIndex_In (i : N) (k : jsstring) (l : list (N * jsstring))
  (x : N * jsstring) :
  In x (insertIndex i k l) <-> x = (i, k) \/ In x l.
Proof.
  induction l as [|[j k'] l IH]; simpl.
  - intuition.
  - destruct (i <? j); simpl; [intuition|]. rewrite IH. intuition.
Qed.

Lemma indexKeys_In (ks : list jsstring) (i : N) (k : jsstring) :
  In (i, k) (indexKeys ks) <-> In k ks /\ arrayIndex k = Some i.
Proof.
  induction ks as [|k0 ks IH]; simpl.
  - tauto.
  - destruct (arrayIndex k0) as [i0|] eqn:E.
    + rewrite insertIndex_In, IH. split.
      * intros [H | [H1 H2]]; [inversion H; subst; auto | auto].
      * intros [[-> | H1] H2]; [left; congruence | auto].
    + rewrite IH. split; [tauto|].
      intros [[-> | H1] H2]; [congruence | auto].
Qed.

Lemma insertIndex_sorted (i : N) (k : jsstring) (l : list (N * jsstring)) :
  StronglySorted byIndex l ->
  (forall x, In x l -> fst x <> i) ->
  StronglySorted byIndex (insertIndex i k l).
Proof.
  induction 1 as [|[j k'] l Hs IH Hall]; intros Hne; simpl.
  - repeat constructor.
  - destruct (i <? j) eqn:E.
    + apply N.ltb_lt in E. constructor.
      * now constructor.
      * constructor; [exact E|].
        rewrite Forall_forall in *. intros x Hx. specialize (Hall x Hx).
        unfold byIndex in *. simpl in *. lia.
    + apply N.ltb_ge in E. constructor.
      * apply IH. intros x Hx. apply Hne. now right.
      * rewrite Forall_forall in *. intros x Hx.
        apply insertIndex_In in Hx as [-> | Hx]; [|auto].
        unfold byIndex. simpl.
        specialize (Hne (j, k') (or_introl eq_refl)). simpl in Hne. lia.
Qed.

Lemma indexKeys_sorted (ks : list jsstring) :
  NoDup ks -> StronglySorted byIndex (indexKeys ks).
Proof.
  induction 1 as [|k ks Hk Hnd IH]; simpl; [constructor|].
  destruct (arrayIndex k) as [i|] eqn:E; [|assumption].
  apply insertIndex_sorted; [assumption|].
  intros [j k'] Hx Hj. simpl in Hj. subst j.
  apply indexKeys_In in Hx as [Hin Hk'].
  apply arrayIndex_Some in E as [_ ->].
  apply arrayIndex_Some in Hk' as [_ ->]. contradiction.
Qed.

Lemma indexKeys_app_named (ks named : list jsstring) :
  forallb isNamedKey named = true ->
  indexKeys (ks ++ named) = indexKeys (ks ++ []).
Proof.
  intros Hn. induction ks as [|k ks IH]; simpl.
  - induction named as [|k named IH]; [reflexivity|].
    simpl in *. apply andb_true_iff in Hn as [Hk Hn].
    unfold isNamedKey in Hk. destruct (arrayIndex k); [discriminate | auto].
  - now rewrite IH.
Qed.

Lemma indexKeys_of_sorted (l : list (N * jsstring)) :
  StronglySorted byIndex l ->
  (forall i k, In (i, k) l -> arrayIndex k = Some i) ->
  indexKeys (map snd l) = l.
Proof.
  induction 1 as [|[i k] l Hs IH Hall]; intros Hidx; simpl; [reflexivity|].
  rewrite (Hidx i k (or_introl eq_refl)).
  rewrite IH by (intros; apply Hidx; now right).
  destruct l as [|[j k'] l]; [reflexivity|]. simpl.
  inversion Hall as [|? ? Hlt _]; subst. unfold byIndex in Hlt. simpl in Hlt.
  apply N.ltb_lt in Hlt. now rewrite Hlt.
Qed.

Lemma filter_named_indexKeys (ks : list jsstring) :
  filter isNamedKey (map snd (indexKeys ks)) = [].
Proof.
  assert (H : forall k, In k (map snd (indexKeys ks)) -> isNamedKey k = false).
  { intros k Hk. apply in_map_iff in Hk as ([i k'] & <- & Hin).
    apply indexKeys_In in Hin as [_ E]. simpl. unfold isNamedKey.
    now rewrite E. }
  induction (map snd (indexKeys ks)) as [|k l IH]; [reflexivity|].
  simpl. rewrite (H k (or_introl eq_refl)). apply IH.
  intros k' Hk'. apply H. now right.
Qed.

Lemma filter_idem {A} (f : A -> bool) (l : list A) :
  filter f (filter f l) = filter f l.
Proof.
  induction l as [|x l IH]; simpl; [reflexivity|].
  destruct (f x) eqn:E; simpl; [rewrite E|]; congruence.
Qed.

Lemma forallb_filter_same {A} (f : A -> bool) (l : list A) :
  forallb f (filter f l) = true.
Proof.
  induction l as [|x l IH]; simpl; [reflexivity|].
  destruct (f x) eqn:E; simpl; [rewrite E|]; assumption.
Qed.

(** [Object.keys] of an object whose keys were created in the order
    [Object.keys] gave is that order again. *)
Lemma keysOrder_idem (ks : list jsstring) :
  NoDup ks -> keysOrder (keysOrder ks) = keysOrder ks.
Proof.
  intros Hnd. unfold keysOrder.
  rewrite indexKeys_app_named by apply forallb_filter_same.
  rewrite app_nil_r.
  rewrite indexKeys_of_sorted.
  - rewrite filter_app, filter_named_indexKeys, filter_idem. reflexivity.
  - now apply indexKeys_sorted.
  - intros i k H. now apply indexKeys_In in H.
Qed.

Lemma StronglySorted_NoDup_keys (l : list (N * jsstring)) :
  StronglySorted byIndex l ->
  (forall i k, In (i, k) l -> i = digitsValue k) ->
  NoDup (map snd l).
Proof.
  induction 1 as [|[i k] l Hs IH Hall]; intros Hidx; simpl; constructor.
  - intros Hin. apply in_map_iff in Hin as ([j k'] & E & Hin).
    simpl in E. subst k'.
    rewrite Forall_forall in Hall. specialize (Hall _ Hin).
    unfold byIndex in Hall. simpl in Hall.
    rewrite (Hidx i k (or_introl eq_refl)) in Hall.
    rewrite (Hidx j k (or_intror Hin)) in Hall. lia.
  - apply IH. intros; apply Hidx; now right.
Qed.

Lemma keysOrder_NoDup (ks : list jsstring) : NoDup ks -> NoDup (keysOrder ks).
Proof.
  intros Hnd. unfold keysOrder. apply NoDup_app.
  - apply StronglySorted_NoDup_keys; [now apply indexKeys_sorted|].
    intros i k H. apply indexKeys_In in H as [_ H].
    now apply arrayIndex_Some in H.
  - now apply NoDup_filter.
  - intros k H1 H2.
    apply in_map_iff in H1 as ([i k'] & <- & Hin).
    apply indexKeys_In in Hin as [_ E]. simpl in H2.
    apply filter_In in H2 as [_ H2]. unfold isNamedKey in H2.
    now rewrite E in H2.
Qed.

Lemma distinct_NoDup (l : list jsstring) : distinct l = true -> NoDup l.
Proof.
  induction l as [|k l IH]; simpl; [constructor|].
  intros H. apply andb_true_iff in H as [Hk Hl]. constructor; [|auto].
  intros Hin. apply arr_includes_In in Hin. now rewrite Hin in Hk.
Qed.

(** ** Digits *)

Lemma isDigit_uintChars (u : Decimal.uint) :
  forallb isDigit (uintChars u) = true.
Proof. induction u; simpl; auto. Qed.

Lemma charsUint_uintChars (u : Decimal.uint) : charsUint (uintChars u) = u.
Proof. induction u; simpl; congruence. Qed.

Lemma digitsValue_digitsOfN (m : N) : digitsValue (digitsOfN m) = m.
Proof.
  unfold digitsValue, digitsOfN. rewrite charsUint_uintChars.
  apply DecimalN.Unsigned.of_to.
Qed.

Lemma isDigit_digitsOfN (m : N) : forallb isDigit (digitsOfN m) = true.
Proof. apply isDigit_uintChars. Qed.

Lemma digitsOfN_cons (m : N) : exists c rest, digitsOfN m = c :: rest.
Proof.
  unfold digitsOfN. destruct m as [|p]; [simpl; eauto|].
  simpl. pose proof (DecimalPos.Unsigned.to_uint_nonnil p) as H.
  destruct (Pos.to_uint p); simpl; eauto. congruence.
Qed.

Lemma isDigit_zeros (n : Z) : forallb isDigit (zeros n) = true.
Proof. unfold zeros. induction (Z.to_nat n); simpl; auto. Qed.

Lemma forallb_firstn {A} (f : A -> bool) (n : nat) (l : list A) :
  forallb f l = true -> forallb f (firstn n l) = true.
Proof.
  revert n. induction l as [|x l IH]; intros [|n]; simpl; auto.
  intros H. apply andb_true_iff in H as [-> H]. simpl. auto.
Qed.

Lemma forallb_skipn {A} (f : A -> bool) (n : nat) (l : list A) :
  forallb f l = true -> forallb f (skipn n l) = true.
Proof.
  revert n. induction l as [|x l IH]; intros [|n]; simpl; auto.
  intros H. apply andb_true_iff in H as [_ H]. auto.
Qed.

Lemma forallb_weaken {A} (f g : A -> bool) (l : list A) :
  (forall x, f x = true -> g x = true) ->
  forallb f l = true -> forallb g l = true.
Proof.
  intros Hfg. induction l as [|x l IH]; simpl; [reflexivity|].
  intros H. apply andb_true_iff in H as [Hx Hl].
  rewrite (Hfg x Hx). auto.
Qed.

Lemma spanDigits_app (a rest : jsstring) :
  forallb isDigit a = true -> startsWithDigit rest = false ->
  spanDigits (a ++ rest) = (a, rest).
Proof.
  intros Ha Hr. induction a as [|c a IH]; simpl in *.
  - destruct rest as [|c rest]; [reflexivity|]. simpl in *. now rewrite Hr.
  - apply andb_true_iff in Ha as [Hc Ha]. rewrite Hc, IH by assumption.
    reflexivity.
Qed.

Lemma spanDigits_all (a : jsstring) :
  forallb isDigit a = true -> spanDigits a = (a, []).
Proof.
  intros Ha. rewrite <- (app_nil_r a) at 1. now apply spanDigits_app.
Qed.

Lemma dropZeros_length (s : jsstring) :
  (List.length (dropZeros s) <= List.length s)%nat.
Proof.
  induction s as [|c s IH]; simpl; [lia|].
  destruct (c =? 48); simpl; lia.
Qed.

Lemma dropZeros_fixed (c : char) (s : jsstring) :
  dropZeros (c :: s) = c :: s -> (c =? 48) = false.
Proof.
  simpl. destruct (c =? 48); [|reflexivity].
  intros H. pose proof (dropZeros_length s) as Hl.
  rewrite H in Hl. simpl in Hl. lia.
Qed.

Lemma dropZeros_repeat (z : nat) (s : jsstring) :
  dropZeros (repeat 48 z ++ s) = dropZeros s.
Proof. induction z; simpl; auto. Qed.

Lemma rev_repeat {A} (x : A) (n : nat) : rev (repeat x n) = repeat x n.
Proof.
  induction n as [|n IH]; simpl; [reflexivity|].
  rewrite IH. clear IH. induction n; simpl; congruence.
Qed.

(** ** The value of a scanned numeral *)

Lemma numeralValue_canonical (neg : bool) (int frac s : jsstring) (e : Z)
  (z m : nat) (c : char) (r : jsstring) :
  int ++ frac = repeat 48 z ++ s ++ repeat 48 m ->
  s = c :: r ->
  dropZeros s = s -> dropZeros (rev s) = rev s ->
  overflows s (Z.of_nat (List.length int) - Z.of_nat z + e) = false ->
  numeralValue (Numeral neg int frac e)
  = Finite (Decimal neg s (Z.of_nat (List.length int) - Z.of_nat z + e)).
Proof.
  intros Hall Hs Hhead Htail Hov. unfold numeralValue. simpl.
  rewrite Hall.
  assert (Hsig : dropZeros (repeat 48 z ++ s ++ repeat 48 m)
                 = s ++ repeat 48 m).
  { rewrite dropZeros_repeat. subst s.
    pose proof (dropZeros_fixed c r Hhead) as Hc.
    simpl. now rewrite Hc. }
  rewrite Hsig.
  assert (Hrev : rev (dropZeros (rev (s ++ repeat 48 m))) = s).
  { rewrite rev_app_distr, rev_repeat, dropZeros_repeat, Htail.
    apply rev_involutive. }
  rewrite Hrev.
  rewrite (length_app (repeat 48 z)), repeat_length, Nat.add_sub.
  rewrite Hov. subst s. reflexivity.
Qed.

(** ** Scanning a numeral *)

Lemma scanUnsigned_eq (neg : bool) (s int s2 frac s3 : jsstring) (e : Z) :
  spanDigits s = (int, s2) -> int <> [] ->
  scanFraction s2 = (frac, s3) -> scanExponent s3 = Some e ->
  scanUnsigned neg s = Some (Numeral neg int frac e).
Proof.
  intros H1 Hne H2 H3. unfold scanUnsigned. rewrite H1.
  destruct int; [congruence|]. now rewrite H2, H3.
Qed.

Lemma scanFraction_digits (s frac rest : jsstring) :
  spanDigits s = (frac, rest) -> frac <> [] ->
  scanFraction (46 :: s) = (frac, rest).
Proof.
  intros H Hne. unfold scanFraction. simpl. rewrite H.
  destruct frac; [congruence | reflexivity].
Qed.

Lemma scanExponent_signed (neg : bool) (ds : jsstring) :
  forallb isDigit ds = true -> ds <> [] ->
  scanExponent (101 :: (if neg then 45 else 43) :: ds)
  = Some (if neg then (- Z.of_N (digitsValue ds))%Z
          else Z.of_N (digitsValue ds)).
Proof.
  intros Hd Hne. unfold scanExponent.
  destruct neg; simpl; rewrite (spanDigits_all ds Hd);
    destruct ds; congruence.
Qed.

Lemma scanExponent_text (n : Z) :
  scanExponent (exponentText n) = Some (n - 1)%Z.
Proof.
  unfold exponentText.
  destruct (digitsOfN_cons (Z.abs_N (n - 1))) as (c & rest & E).
  assert (Hne : digitsOfN (Z.abs_N (n - 1)) <> []) by (rewrite E; discriminate).
  pose proof (scanExponent_signed (n - 1 <? 0)%Z _ (isDigit_digitsOfN _) Hne)
    as H.
  rewrite digitsValue_digitsOfN, N2Z.inj_abs_N in H.
  destruct (n - 1 <? 0)%Z eqn:Hsign; simpl in H |- *; rewrite H; f_equal.
  - apply Z.ltb_lt in Hsign. lia.
  - apply Z.ltb_ge in Hsign. lia.
Qed.

Lemma numeralValue_at (neg : bool) (int frac s : jsstring) (e n : Z)
  (z m : nat) (c : char) (r : jsstring) :
  int ++ frac = repeat 48 z ++ s ++ repeat 48 m ->
  s = c :: r ->
  dropZeros s = s -> dropZeros (rev s) = rev s ->
  (Z.of_nat (List.length int) - Z.of_nat z + e)%Z = n ->
  overflows s n = false ->
  numeralValue (Numeral neg int frac e) = Finite (Decimal neg s n).
Proof.
  intros Hall Hs Hhead Htail <- Hov.
  now apply (numeralValue_canonical neg int frac s e z m c r).
Qed.

Lemma numeralChar_digit (c : char) : isDigit c = true -> numeralChar c = true.
Proof. unfold numeralChar. now intros ->. Qed.

Lemma exponentText_chars (n : Z) : forallb numeralChar (exponentText n) = true.
Proof.
  unfold exponentText. rewrite !forallb_app.
  rewrite (forallb_weaken _ _ _ numeralChar_digit (isDigit_digitsOfN _)).
  destruct (n - 1 <? 0)%Z; reflexivity.
Qed.

Lemma exponentText_head (n : Z) :
  exists rest, exponentText n = 101 :: rest.
Proof. unfold exponentText. simpl. eauto. Qed.

Lemma magnitude_chars (s : jsstring) (n : Z) :
  forallb isDigit s = true ->
  forallb numeralChar (magnitudeToString s n) = true.
Proof.
  intros Hd. pose proof (forallb_weaken _ _ _ numeralChar_digit Hd) as Hs.
  unfold magnitudeToString.
  repeat match goal with
         | |- context [if ?b then _ else _] => destruct b
         end.
  - rewrite forallb_app, Hs.
    apply (forallb_weaken _ _ _ numeralChar_digit (isDigit_zeros _)).
  - rewrite !forallb_app, forallb_firstn, forallb_skipn by assumption.
    reflexivity.
  - rewrite !forallb_app, Hs.
    rewrite (forallb_weaken _ _ _ numeralChar_digit (isDigit_zeros _)).
    reflexivity.
  - destruct s as [|c [|c2 r]]; [reflexivity | |].
    + rewrite forallb_app, exponentText_chars. simpl in *.
      now rewrite Hs.
    + rewrite !forallb_app, exponentText_chars.
      change (c :: c2 :: r) with ([c] ++ c2 :: r) in Hs.
      rewrite forallb_app in Hs. apply andb_true_iff in Hs as [-> ->].
      reflexivity.
Qed.

Section CanonicalDigits.

Variables (s : jsstring) (c : char) (r : jsstring).
Hypothesis s_shape : s = c :: r.
Hypothesis s_digits : forallb isDigit s = true.
Hypothesis s_head : dropZeros s = s.
Hypothesis s_tail : dropZeros (rev s) = rev s.

Lemma s_length : (0 < List.length s)%nat.
Proof. rewrite s_shape. simpl. lia. Qed.

Lemma magnitude_scan (neg : bool) (n : Z) :
  overflows s n = false ->
  exists m, scanUnsigned neg (magnitudeToString s n) = Some m
            /\ numeralValue m = Finite (Decimal neg s n).
Proof.
  intros Hov. unfold magnitudeToString. pose proof s_length as Hlen.
  destruct ((Z.of_nat (List.length s) <=? n)%Z && (n <=? 21)%Z) eqn:F1;
    [|destruct ((0 <? n)%Z && (n <=? 21)%Z) eqn:F2;
      [|destruct ((-6 <? n)%Z && (n <=? 0)%Z) eqn:F3]].
  - (* digits followed by zeros *)
    apply andb_true_iff in F1 as [Hk _]. apply Z.leb_le in Hk.
    eexists. split.
    + eapply scanUnsigned_eq.
      * apply spanDigits_all. rewrite forallb_app, s_digits.
        apply isDigit_zeros.
      * intros E. apply (f_equal (@List.length _)) in E.
        rewrite length_app in E.
        change (List.length (@nil char)) with 0%nat in E.
        lia.
      * reflexivity.
      * reflexivity.
    + eapply (numeralValue_at neg _ _ s 0%Z n 0
                (Z.to_nat (n - Z.of_nat (List.length s))) c r);
        try assumption; try reflexivity.
      * rewrite app_nil_r. reflexivity.
      * rewrite length_app. unfold zeros. rewrite repeat_length. lia.
  - (* a point inside the digits *)
    apply andb_true_iff in F2 as [Hpos Hn]. apply Z.ltb_lt in Hpos.
    rewrite Hn, andb_true_r in F1. apply Z.leb_gt in F1.
    set (p := Z.to_nat n).
    assert (Hp : (0 < p < List.length s)%nat) by (unfold p; lia).
    eexists. split.
    + eapply scanUnsigned_eq.
      * apply (spanDigits_app (firstn p s) (str "." ++ skipn p s));
          [now apply forallb_firstn | reflexivity].
      * intros E. apply (f_equal (@List.length _)) in E.
        rewrite length_firstn in E.
        change (List.length (@nil char)) with 0%nat in E. lia.
      * apply scanFraction_digits.
        -- apply spanDigits_all. now apply forallb_skipn.
        -- intros E. apply (f_equal (@List.length _)) in E.
           rewrite length_skipn in E.
           change (List.length (@nil char)) with 0%nat in E. lia.
      * reflexivity.
    + eapply (numeralValue_at neg _ _ s 0%Z n 0 0 c r);
        try assumption; try reflexivity.
      * rewrite firstn_skipn, app_nil_r. reflexivity.
      * rewrite length_firstn. unfold p in *. lia.
  - (* zero, a point, zeros and the digits *)
    apply andb_true_iff in F3 as [_ Hn]. apply Z.leb_le in Hn.
    eexists. split.
    + eapply scanUnsigned_eq.
      * apply (spanDigits_app [48] (46 :: zeros (- n) ++ s)); reflexivity.
      * discriminate.
      * apply scanFraction_digits.
        -- apply spanDigits_all. rewrite forallb_app, s_digits.
           rewrite isDigit_zeros. reflexivity.
        -- rewrite s_shape. intros E. apply app_eq_nil in E as [_ E].
           discriminate.
      * reflexivity.
    + eapply (numeralValue_at neg _ _ s 0%Z n (S (Z.to_nat (- n))) 0 c r);
        try assumption; try reflexivity.
      * rewrite app_nil_r. reflexivity.
      * simpl List.length. lia.
  - (* exponent notation *)
    destruct (exponentText_head n) as (tail & Ht).
    rewrite s_shape in *. destruct r as [|c2 r'].
    + eexists. split.
      * eapply scanUnsigned_eq.
        -- apply (spanDigits_app [c] (exponentText n)); [assumption|].
           rewrite Ht. reflexivity.
        -- discriminate.
        -- rewrite Ht. reflexivity.
        -- rewrite <- Ht. apply scanExponent_text.
      * eapply (numeralValue_at neg _ _ [c] (n - 1)%Z n 0 0 c []);
          try assumption; try reflexivity.
        simpl List.length. lia.
    + eexists. split.
      * eapply scanUnsigned_eq.
        -- apply (spanDigits_app [c] (str "." ++ (c2 :: r') ++ exponentText n));
             [|reflexivity].
           simpl in s_digits |- *. apply andb_true_iff in s_digits as [-> _].
           reflexivity.
        -- discriminate.
        -- apply scanFraction_digits.
           ++ apply spanDigits_app.
              ** simpl in s_digits. apply andb_true_iff in s_digits as [_ H].
                 exact H.
              ** rewrite Ht. reflexivity.
           ++ discriminate.
        -- apply scanExponent_text.
      * eapply (numeralValue_at neg _ _ (c :: c2 :: r') (n - 1)%Z n 0 0 c
                  (c2 :: r'));
          try assumption; try reflexivity.
        -- simpl. rewrite app_nil_r. reflexivity.
        -- simpl List.length. lia.
Qed.

Lemma magnitude_first (n : Z) :
  exists c' rest, magnitudeToString s n = c' :: rest
                  /\ isDigit c' = true
                  /\ zerosThenNonzero (c' :: rest) = false.
Proof.
  assert (Hc : isDigit c = true).
  { pose proof s_digits as H. rewrite s_shape in H. simpl in H.
    now apply andb_true_iff in H as [H _]. }
  assert (Hz : forall rest, zerosThenNonzero (c :: rest) = false).
  { intros rest. pose proof s_head as H. rewrite s_shape in H.
    apply dropZeros_fixed in H. simpl. now rewrite H. }
  unfold magnitudeToString.
  destruct ((Z.of_nat (List.length s) <=? n)%Z && (n <=? 21)%Z) eqn:F1;
    [|destruct ((0 <? n)%Z && (n <=? 21)%Z) eqn:F2;
      [|destruct ((-6 <? n)%Z && (n <=? 0)%Z) eqn:F3]].
  - rewrite s_shape. simpl. eauto.
  - apply andb_true_iff in F2 as [Hpos _]. apply Z.ltb_lt in Hpos.
    destruct (Z.to_nat n) as [|p] eqn:E; [lia|].
    rewrite s_shape. simpl. eauto.
  - exists 48, (46 :: zeros (- n) ++ s). repeat split.
  - rewrite s_shape. destruct r; simpl; eauto.
Qed.

End CanonicalDigits.

(** ** Written numbers are read back *)

Ltac bool_cases :=
  repeat match goal with
         | H : _ || _ = true |- _ => apply orb_true_iff in H; destruct H
         | H : _ && _ = true |- _ => apply andb_true_iff in H; destruct H
         | H : (_ =? _) = true |- _ => apply N.eqb_eq in H
         | H : (_ <=? _) = true |- _ => apply N.leb_le in H
         | H : (_ <? _) = true |- _ => apply N.ltb_lt in H
         end.

Lemma numeralChar_not_white (c : char) :
  numeralChar c = true -> isWhiteSpace c = false.
Proof.
  intros H. destruct (isWhiteSpace c) eqn:W; [|reflexivity]. exfalso.
  unfold numeralChar, isDigit in H. unfold isWhiteSpace in W.
  bool_cases; lia.
Qed.

Lemma numeralChar_not_special (c : char) :
  numeralChar c = true -> special COMMA c = false.
Proof.
  intros H. destruct (special COMMA c) eqn:W; [|reflexivity]. exfalso.
  unfold numeralChar, isDigit in H. unfold special, COMMA, QUOTE, LF, CR in W.
  bool_cases; lia.
Qed.

Lemma trimStart_id (s : jsstring) :
  forallb (fun c => negb (isWhiteSpace c)) s = true -> trimStart s = s.
Proof.
  destruct s as [|c s]; [reflexivity|]. simpl.
  intros H. apply andb_true_iff in H as [H _].
  apply negb_true_iff in H. now rewrite H.
Qed.

Lemma trim_id (s : jsstring) :
  forallb (fun c => negb (isWhiteSpace c)) s = true -> trim s = s.
Proof.
  intros H. unfold trim. rewrite (trimStart_id s H).
  rewrite trimStart_id by now rewrite forallb_rev.
  apply rev_involutive.
Qed.

Lemma not_null_literal (a : char) (rest : jsstring) :
  numeralChar a = true ->
  streq (a :: rest) [] || streq (a :: rest) (str "null")
  || streq (a :: rest) (str "NULL") = false.
Proof.
  intros H.
  assert (H1 : (a =? 110) = false).
  { destruct (a =? 110) eqn:E; [|reflexivity].
    apply N.eqb_eq in E. subst. discriminate. }
  assert (H2 : (a =? 78) = false).
  { destruct (a =? 78) eqn:E; [|reflexivity].
    apply N.eqb_eq in E. subst. discriminate. }
  change (str "null") with (110 :: str "ull").
  change (str "NULL") with (78 :: str "ULL").
  cbn [streq]. now rewrite H1, H2.
Qed.

Lemma decimalToString_chars (d : decimal) :
  forallb isDigit (digits d) = true ->
  forallb numeralChar (decimalToString d) = true.
Proof.
  intros Hd. unfold decimalToString. destruct (digits d) eqn:E; [reflexivity|].
  rewrite forallb_app, <- E, magnitude_chars by (rewrite E; assumption).
  destruct (negative d); reflexivity.
Qed.

Lemma inferValue_number (d : decimal) :
  canonical d = true -> inferValue (decimalToString d) = VNum (Finite d).
Proof.
  destruct d as [neg s n]. unfold canonical. cbn [digits negative point].
  intros H.
  apply andb_true_iff in H as [H Hshape].
  apply andb_true_iff in H as [H Htail]. apply streq_eq in Htail.
  apply andb_true_iff in H as [Hd Hhead]. apply streq_eq in Hhead.
  pose proof (decimalToString_chars (Decimal neg s n) Hd) as Hchars.
  destruct s as [|c r].
  - apply andb_true_iff in Hshape as [Hneg Hn].
    apply negb_true_iff in Hneg. apply Z.eqb_eq in Hn. subst. reflexivity.
  - apply negb_true_iff in Hshape.
    destruct (magnitude_scan (c :: r) c r eq_refl Hd Hhead Htail neg n Hshape)
      as (m & Hscan & Hval).
    destruct (magnitude_first (c :: r) c r eq_refl Hd Hhead n)
      as (c' & rest & Hbody & Hc' & Hlz).
    unfold decimalToString in *. cbn [digits negative point] in *.
    set (t := (if neg then str "-" else []) ++ magnitudeToString (c :: r) n)
      in *.
    assert (Hsign : scanSign t = (neg, magnitudeToString (c :: r) n)).
    { unfold t. rewrite Hbody. destruct neg; [reflexivity|].
      simpl. destruct (c' =? 45) eqn:E; [|reflexivity].
      apply N.eqb_eq in E. subst. discriminate. }
    assert (Hnull : streq t [] || streq t (str "null")
                    || streq t (str "NULL") = false).
    { unfold t. rewrite Hbody. destruct neg.
      - apply not_null_literal. reflexivity.
      - apply not_null_literal. now apply numeralChar_digit. }
    unfold inferValue.
    rewrite trim_id
      by (apply (forallb_weaken numeralChar); [|assumption];
          intros x Hx; now rewrite numeralChar_not_white).
    rewrite Hnull. unfold numberPattern, hasLeadingZeros, Number_, scanNumeral.
    rewrite Hsign. cbn [snd]. rewrite Hscan, Hbody, Hlz, Hval. reflexivity.
Qed.

Lemma plain_number (d : decimal) :
  canonical d = true -> plain COMMA (decimalToString d) = true.
Proof.
  unfold canonical. intros H.
  apply andb_true_iff in H as [H _].
  apply andb_true_iff in H as [H _].
  apply andb_true_iff in H as [Hd _].
  unfold plain. apply (forallb_weaken numeralChar).
  - intros x Hx. now rewrite numeralChar_not_special.
  - now apply decimalToString_chars.
Qed.

(** ** Written cells are read back *)

Lemma plain_includes (s : jsstring) :
  plain COMMA s
  = negb (includes s COMMA || includes s QUOTE
          || includes s LF || includes s CR).
Proof.
  unfold plain, includes. induction s as [|a s IH]; [reflexivity|].
  cbn [forallb existsb]. rewrite IH. unfold special.
  rewrite (N.eqb_sym a COMMA), (N.eqb_sym a QUOTE), (N.eqb_sym a LF),
    (N.eqb_sym a CR).
  destruct (COMMA =? a), (QUOTE =? a), (LF =? a), (CR =? a),
    (existsb (N.eqb COMMA) s), (existsb (N.eqb QUOTE) s),
    (existsb (N.eqb LF) s), (existsb (N.eqb CR) s); reflexivity.
Qed.

Lemma escape_string_encodes (s : jsstring) :
  encodes COMMA (escapeCSVValue (VStr s) false) s.
Proof.
  unfold escapeCSVValue. cbn [String_].
  pose proof (plain_includes s) as H.
  destruct (includes s COMMA || includes s QUOTE
            || includes s LF || includes s CR).
  - apply enc_quoted.
  - apply enc_plain. exact H.
Qed.

(** The escaper quotes a string exactly when it holds a comma, a quote,
    LF or CR, whatever the delimiter of the writer is. *)
Lemma escape_string_comma (s : jsstring) :
  escapeCSVValue (VStr s) false
  = if plain COMMA s then s else [QUOTE] ++ doubleQuotes s ++ [QUOTE].
Proof.
  unfold escapeCSVValue. cbn [String_]. rewrite plain_includes.
  destruct (includes s COMMA || includes s QUOTE
            || includes s LF || includes s CR); reflexivity.
Qed.

Lemma keptAsString_infer (s : jsstring) :
  keptAsString s = true -> inferValue s = VStr s.
Proof.
  unfold keptAsString, inferValue.
  repeat match goal with
         | |- context [if ?b then _ else _] => destruct b
         end; try discriminate; reflexivity.
Qed.

Lemma inferValue_nonblank (f : jsstring) :
  inferValue f <> VNull -> streq (trim f) [] = false.
Proof.
  unfold inferValue. destruct (streq (trim f) []); [|reflexivity].
  simpl. congruence.
Qed.

Lemma cell_round_trip (v : jsvalue) :
  roundTripCell v = true ->
  encodes COMMA (cellText v) (fieldOf v) /\ inferValue (fieldOf v) = v.
Proof.
  destruct v as [| |b|[| |d]|s]; simpl; try discriminate; intros H.
  - split; [now apply enc_plain | reflexivity].
  - split.
    + apply enc_plain. now apply plain_number.
    + now apply inferValue_number.
  - split.
    + apply escape_string_encodes.
    + now apply keptAsString_infer.
Qed.

(** ** The text of a table *)

Lemma toCSV_text (firstRow : obj) (rest : list obj) :
  let rows := firstRow :: rest in
  let cols := Object_keys firstRow in
  toCSV (newDataFrame rows) None
  = join [LF]
      (map (join [COMMA])
           (cols :: map (fun row => map (fun c => cellText (obj_get row c)) cols)
                        rows)).
Proof.
  intros rows cols. unfold toCSV.
  cbn [optionOr newDataFrame getRows getColumnNames data columns].
  fold rows. fold cols. rewrite headerLine_verbatim.
  unfold rows at 1. cbv iota beta. rewrite map_cons, map_map. reflexivity.
Qed.

Lemma join_blank (sep : jsstring) (parts : list jsstring) :
  existsb nonBlank parts = true ->
  forallb isWhiteSpace (join sep parts) = false.
Proof.
  induction parts as [|p parts IH]; [discriminate|].
  cbn [existsb]. intros H.
  destruct parts as [|p' parts].
  - cbn [existsb] in H. rewrite orb_false_r in H.
    simpl. unfold nonBlank in H. now apply negb_true_iff in H.
  - change (join sep (p :: p' :: parts))
      with (p ++ sep ++ join sep (p' :: parts)).
    rewrite !forallb_app.
    apply orb_true_iff in H as [H | H].
    + unfold nonBlank in H. apply negb_true_iff in H. now rewrite H.
    + rewrite (IH H). now rewrite !andb_false_r.
Qed.

Lemma filter_all {A} (f : A -> bool) (l : list A) :
  forallb f l = true -> filter f l = l.
Proof.
  induction l as [|x l IH]; simpl; [reflexivity|].
  intros H. apply andb_true_iff in H as [-> H]. now rewrite IH.
Qed.

Lemma Forall2_map_same {A B C} (R : B -> C -> Prop) (f : A -> B) (g : A -> C)
  (l : list A) :
  (forall x, In x l -> R (f x) (g x)) -> Forall2 R (map f l) (map g l).
Proof.
  induction l as [|x l IH]; simpl; intros H; constructor.
  - apply H. now left.
  - apply IH. intros y Hy. apply H. now right.
Qed.

Lemma isBlankRow_nonBlank (row : list jsstring) :
  isBlankRow row = negb (existsb nonBlank row).
Proof.
  unfold isBlankRow. f_equal.
  induction row as [|x row IH]; simpl; [reflexivity|].
  rewrite IH. unfold nonBlank. now rewrite streq_trim_nil.
Qed.

Lemma ownCells_get (cols : list jsstring) (f : jsstring -> jsstring)
  (row : obj) (c : jsstring) :
  NoDup cols -> In c cols ->
  obj_get (ownCells cols (map f cols) row) c = inferValue (f c).
Proof.
  intros Hnd. revert row. induction Hnd as [|c0 cs Hc0 Hnd IH]; intros row Hin.
  - destruct Hin.
  - simpl. destruct Hin as [-> | Hin].
    + rewrite ownCells_other by assumption. apply obj_get_set_same.
    + now apply IH.
Qed.

Lemma parseDataRow_full (cols : list jsstring) (f : jsstring -> jsstring) :
  arr_includes cols PROTO = false ->
  parseDataRow cols (map f cols) = ownCells cols (map f cols) [].
Proof.
  intros H. rewrite parseDataRow_own by assumption. unfold padValues.
  rewrite length_map, Nat.sub_diag. simpl. now rewrite app_nil_r.
Qed.

Lemma Object_keys_order (o : obj) : Object_keys o = keysOrder (map fst o).
Proof. reflexivity. Qed.

Lemma built_row_keys (cols : list jsstring) (f : jsstring -> jsstring) :
  arr_includes cols PROTO = false ->
  NoDup cols -> map fst (parseDataRow cols (map f cols)) = cols.
Proof.
  intros Hp Hnd. rewrite parseDataRow_full by assumption.
  rewrite ownCells_fresh; [reflexivity | assumption | simpl; tauto].
Qed.

Lemma roundTripTable_cons (firstRow : obj) (rest : list obj) :
  roundTripTable (firstRow :: rest) = true ->
  let cols := Object_keys firstRow in
  NoDup (map fst firstRow) /\ NoDup cols /\
  arr_includes cols PROTO = false /\
  forallb (plain COMMA) cols = true /\
  existsb nonBlank cols = true /\
  forall row, In row (firstRow :: rest) ->
    (forall c, In c cols -> roundTripCell (obj_get row c) = true) /\
    existsb (fun c => negb (isNullish (obj_get row c))) cols = true.
Proof.
  intros H. unfold roundTripTable in H. cbv zeta in *.
  set (cols := Object_keys firstRow) in *.
  apply andb_true_iff in H as [H Hcells].
  apply andb_true_iff in H as [H Hnb].
  apply andb_true_iff in H as [H Hplain].
  apply andb_true_iff in H as [Hdist Hproto].
  apply negb_true_iff in Hproto.
  apply distinct_NoDup in Hdist.
  repeat split; try assumption.
  - unfold cols. rewrite Object_keys_order. now apply keysOrder_NoDup.
  - rewrite forallb_forall in Hcells. specialize (Hcells row H).
    apply andb_true_iff in Hcells as [Hc _].
    rewrite forallb_forall in Hc. now apply Hc.
  - rewrite forallb_forall in Hcells. specialize (Hcells row H).
    now apply andb_true_iff in Hcells as [_ Hc].
Qed.

Lemma written_row_not_blank (cols : list jsstring) (row : obj) :
  (forall c, In c cols -> roundTripCell (obj_get row c) = true) ->
  existsb (fun c => negb (isNullish (obj_get row c))) cols = true ->
  isBlankRow (map (fun c => fieldOf (obj_get row c)) cols) = false.
Proof.
  intros Hcells Hsome. unfold isBlankRow. apply negb_false_iff.
  apply existsb_exists in Hsome as (c & Hc & Hv).
  apply existsb_exists. exists (fieldOf (obj_get row c)). split.
  - apply in_map_iff. eauto.
  - apply negb_true_iff. apply inferValue_nonblank.
    destruct (cell_round_trip _ (Hcells c Hc)) as [_ ->].
    intros E. rewrite E in Hv. discriminate.
Qed.

(** C1, amended.  A table whose first row has distinct keys, whose
    column names are not [__proto__], hold no comma, quote, LF or CR and
    are not all blank, whose cells are null, finite numbers or strings
    the inference keeps as strings, and whose rows each have a cell that
    is not null, is read back from its CSV text with the same column
    names, the same number of rows and the same cells. *)
Theorem csv_round_trip (rows : list obj) :
  roundTripTable rows = true ->
  equivalent (fromCSV (toCSV (newDataFrame rows) None) None)
             (newDataFrame rows).
Proof.
  destruct rows as [|firstRow rest]; intros H.
  - repeat split. constructor.
  - destruct (roundTripTable_cons firstRow rest H)
      as (Hkeys & Hnd & Hproto & Hplain & Hnb & Hrows).
    rewrite toCSV_text.
    set (rows := firstRow :: rest) in *.
    set (cols := Object_keys firstRow) in *.
    set (texts := cols :: map (fun row =>
                   map (fun c => cellText (obj_get row c)) cols) rows).
    set (fields := map (fun row =>
                   map (fun c => fieldOf (obj_get row c)) cols) rows).
    set (text := join [LF] (map (join [COMMA]) texts)).
    assert (Hcols : cols <> []) by (intros E; rewrite E in Hnb; discriminate).
    assert (Hparse : parseCSVRows text [COMMA] = cols :: fields).
    { apply parseCSVRows_written.
      - constructor.
        + rewrite <- (map_id cols). apply Forall2_map_same.
          intros c Hc. apply enc_plain.
          rewrite forallb_forall in Hplain. now apply Hplain.
        + apply Forall2_map_same. intros row Hrow.
          apply Forall2_map_same. intros c Hc.
          apply cell_round_trip. now apply (Hrows row Hrow).
      - constructor; [assumption|].
        apply Forall_forall. intros ts Hts.
        apply in_map_iff in Hts as (row & <- & _).
        intros E. apply map_eq_nil in E. contradiction.
      - discriminate. }
    assert (Hfilter : filteredRowsOf text None = cols :: fields).
    { unfold filteredRowsOf. cbn [optionOr]. rewrite Hparse.
      apply filter_all. cbn [forallb].
      rewrite isBlankRow_nonBlank, Hnb. cbn [negb andb].
      apply forallb_forall. intros fs Hfs.
      apply in_map_iff in Hfs as (row & <- & Hrow).
      apply negb_true_iff.
      apply written_row_not_blank; now apply (Hrows row Hrow). }
    assert (Hguard : streq text [] || streq (trim text) [] = false).
    { assert (Hw : forallb isWhiteSpace text = false).
      { apply join_blank. unfold texts. cbn [map existsb].
        unfold nonBlank at 1. now rewrite (join_blank [COMMA] cols Hnb). }
      rewrite streq_trim_nil, Hw.
      destruct text; [discriminate | reflexivity]. }
    rewrite (fromCSV_data_rows text None cols fields Hguard eq_refl Hfilter
               Hcols ltac:(discriminate)).
    unfold fields, rows. cbn [map].
    unfold equivalent, getColumnNames, getRows, length.
    cbn [newDataFrame data columns].
    assert (Hsame : Object_keys
                      (parseDataRow cols
                         (map (fun c => fieldOf (obj_get firstRow c)) cols))
                    = cols).
    { rewrite Object_keys_order, built_row_keys by assumption.
      unfold cols. rewrite Object_keys_order. now apply keysOrder_idem. }
    rewrite Hsame. fold cols. repeat split.
    + cbn [List.length]. now rewrite !length_map.
    + change (Forall2
                (fun a b => Forall (fun c => obj_get a c = obj_get b c) cols)
                (map (parseDataRow cols)
                     (map (fun row => map (fun c => fieldOf (obj_get row c)) cols)
                          rows))
                rows).
      rewrite map_map. rewrite <- (map_id rows) at 2.
      apply Forall2_map_same. intros row Hrow.
      apply Forall_forall. intros c Hc.
      rewrite parseDataRow_full, ownCells_get by assumption.
      apply cell_round_trip. now apply (Hrows row Hrow).
Qed.

Lemma csv_round_trip_witness :
  equivalent (fromCSV (toCSV (newDataFrame sampleRows) None) None)
             (newDataFrame sampleRows).
Proof.
  apply (csv_round_trip sampleRows). vm_compute. reflexivity.
Defined.

(** The sample table is written with its quoted fields and read back
    cell by cell; the column [2024], an array index, comes first. *)
Example sample_round_trip :
  getColumnNames (newDataFrame sampleRows)
  = [str "2024"; str "name"; str "age"; str "note"] /\
  toCSV (newDataFrame sampleRows) None
  = str "2024,name,age,note" ++ [LF]
    ++ str "001," ++ [QUOTE] ++ str "Alice, Jr." ++ [QUOTE] ++ str ",30," ++ [LF]
    ++ str "1.5e-9," ++ [QUOTE] ++ str "Bob" ++ [LF] ++ str "Smith"
    ++ [QUOTE; QUOTE; QUOTE] ++ str ",-0.5, x " ++ [LF]
    ++ str ",,1.2e+26," /\
  getColumn (fromCSV (toCSV (newDataFrame sampleRows) None) None) (str "name")
  = getColumn (newDataFrame sampleRows) (str "name").
Proof. repeat split. Qed.

(** C1 as stated fails.  The string cell [1] comes back as the number 1;
    a row whose cells are all null is dropped as an empty line; a blank
    column name makes the header line an empty line. *)
Lemma round_trip_not_for_every_table :
  (plainTable (newDataFrame numericString) = true /\
   ~ equivalent (fromCSV (toCSV (newDataFrame numericString) None) None)
                (newDataFrame numericString)) /\
  (plainTable (newDataFrame nullRow) = true /\
   ~ equivalent (fromCSV (toCSV (newDataFrame nullRow) None) None)
                (newDataFrame nullRow)) /\
  (plainTable (newDataFrame blankName) = true /\
   ~ equivalent (fromCSV (toCSV (newDataFrame blankName) None) None)
                (newDataFrame blankName)).
Proof.
  repeat split.
  - intros (_ & _ & H). vm_compute in H.
    inversion H as [|? ? ? ? Hrow _]. inversion Hrow as [|? ? Hcell _].
    discriminate Hcell.
  - intros (_ & H & _). vm_compute in H. discriminate H.
  - intros (H & _). vm_compute in H. discriminate H.
Qed.

(** ** Row terminators *)

Section Terminators.

Local Arguments N.eqb : simpl never.
Variable dc : char.
Hypothesis dc_quote : (dc =? QUOTE) = false.
Hypothesis dc_lf : (dc =? LF) = false.
Hypothesis dc_cr : (dc =? CR) = false.

Lemma step_cr_lf rest rows cr cur :
  parseLoop [dc] (CR :: LF :: rest) rows cr cur false
  = parseLoop [dc] (LF :: rest) rows cr (cur ++ [CR]) false.
Proof.
  rewrite N.eqb_sym in dc_cr.
  cbn [parseLoop]. simpl. rewrite dc_cr. reflexivity.
Qed.

Lemma step_cr rest rows cr cur :
  startsWithLF rest = false ->
  parseLoop [dc] (CR :: rest) rows cr cur false
  = parseLoop [dc] rest (rows ++ [cr ++ [cur]]) [] [] false.
Proof.
  intros H. rewrite N.eqb_sym in dc_cr.
  destruct rest as [|c rest]; simpl in *; rewrite dc_cr; [reflexivity|].
  rewrite H. reflexivity.
Qed.

Lemma run_fields rs fs rest rows cr :
  Forall2 (encodes dc) rs fs -> rs <> [] ->
  startsWithQuote rest = false ->
  parseLoop [dc] (join [dc] rs ++ rest) rows cr [] false
  = parseLoop [dc] rest rows (cr ++ removelast fs) (last fs []) false.
Proof.
  intros H. revert cr.
  induction H as [|r f rs fs Hrf Hrest IH]; intros cr Hne Hq; [congruence|].
  destruct rs as [|r' rs].
  - inversion Hrest; subst. simpl join.
    rewrite (run_field dc r f rest rows cr Hrf Hq). simpl.
    now rewrite app_nil_r.
  - change (join [dc] (r :: r' :: rs))
      with (r ++ [dc] ++ join [dc] (r' :: rs)).
    rewrite <- !app_assoc.
    rewrite (run_field dc r f _ rows cr Hrf) by (simpl; assumption).
    simpl app. rewrite (step_delimiter dc dc_quote).
    rewrite IH by (assumption || discriminate).
    inversion Hrest; subst. cbn [removelast last].
    now rewrite <- app_assoc.
Qed.

End Terminators.

Lemma comma_cr : (COMMA =? CR) = false.
Proof. reflexivity. Qed.

Lemma plain_row_encodes (row : list jsstring) :
  forallb (plain COMMA) row = true -> Forall2 (encodes COMMA) row row.
Proof.
  intros H. rewrite <- (map_id row). apply Forall2_map_same.
  intros c Hc. apply enc_plain. rewrite forallb_forall in H. now apply H.
Qed.

Lemma plain_row_start (row : list jsstring) :
  forallb (plain COMMA) row = true ->
  startsWithLF (join [COMMA] row) = false.
Proof.
  destruct row as [|[|c p] ps]; [reflexivity | | ].
  - destruct ps; reflexivity.
  - intros H. cbn [forallb plain] in H.
    apply andb_true_iff in H as [H _]. apply andb_true_iff in H as [H _].
    apply negb_true_iff in H. unfold special in H.
    apply orb_false_iff in H as [H _]. apply orb_false_iff in H as [_ H].
    destruct ps; exact H.
Qed.

(** The three row terminators on two rows of plain fields: LF and CR
    alone end the first row; with CR LF the carriage return is kept at
    the end of its last field. *)
Lemma terminators_on_plain_rows (r1 : list jsstring) (f : jsstring)
  (r2 : list jsstring) :
  forallb (plain COMMA) (r1 ++ [f]) = true ->
  forallb (plain COMMA) r2 = true -> r2 <> [] ->
  parseCSVRows (join [COMMA] (r1 ++ [f]) ++ [LF] ++ join [COMMA] r2) [COMMA]
  = [r1 ++ [f]; r2] /\
  parseCSVRows (join [COMMA] (r1 ++ [f]) ++ [CR] ++ join [COMMA] r2) [COMMA]
  = [r1 ++ [f]; r2] /\
  parseCSVRows (join [COMMA] (r1 ++ [f]) ++ [CR; LF] ++ join [COMMA] r2) [COMMA]
  = [r1 ++ [f ++ [CR]]; r2].
Proof.
  intros H1 H2 Hne.
  pose proof (plain_row_encodes _ H1) as E1.
  pose proof (plain_row_encodes _ H2) as E2.
  assert (Hn1 : r1 ++ [f] <> []) by (destruct r1; discriminate).
  assert (Hrow2 : forall rows,
             parseLoop [COMMA] (join [COMMA] r2) rows [] [] false = rows ++ [r2]).
  { intros rows. rewrite <- (app_nil_r (join [COMMA] r2)).
    rewrite (run_row COMMA comma_quote comma_lf r2 r2 [] rows [] E2 Hne)
      by (left; reflexivity).
    reflexivity. }
  unfold parseCSVRows. repeat split.
  - rewrite (run_fields COMMA comma_quote _ _ _ [] [] E1 Hn1) by reflexivity.
    rewrite removelast_last, last_last. simpl app.
    rewrite (step_newline COMMA comma_lf). apply Hrow2.
  - rewrite (run_fields COMMA comma_quote _ _ _ [] [] E1 Hn1) by reflexivity.
    rewrite removelast_last, last_last. simpl app.
    rewrite (step_cr COMMA comma_cr) by now apply plain_row_start.
    apply Hrow2.
  - rewrite (run_fields COMMA comma_quote _ _ _ [] [] E1 Hn1) by reflexivity.
    rewrite removelast_last, last_last. simpl app.
    rewrite (step_cr_lf COMMA comma_cr).
    rewrite (step_newline COMMA comma_lf). apply Hrow2.
Qed.

Lemma terminators_on_plain_rows_witness :
  parseCSVRows (str "a,b" ++ [CR; LF] ++ str "c") [COMMA]
  = [[str "a"; str "b" ++ [CR]]; [str "c"]].
Proof.
  apply (terminators_on_plain_rows [str "a"] (str "b") [str "c"]);
    [reflexivity | reflexivity | discriminate].
Defined.

(** ** More on the tokenizer *)

Lemma parseLoop_cons (delimiter : jsstring) (ch : char) (rest : jsstring)
  (rows : list (list jsstring)) (currentRow : list jsstring)
  (current : jsstring) (inQuotes : bool) :
  parseLoop delimiter (ch :: rest) rows currentRow current inQuotes
  = let nextIs (c : N) :=
      match rest with nextChar :: _ => nextChar =? c | [] => false end in
    let after := match rest with _ :: after => after | [] => rest end in
    if ch =? QUOTE then
      if inQuotes && nextIs QUOTE then
        parseLoop delimiter after rows currentRow (current ++ [QUOTE]) inQuotes
      else if inQuotes then
        parseLoop delimiter rest rows currentRow current false
      else
        parseLoop delimiter rest rows currentRow current true
    else if streq [ch] delimiter && negb inQuotes then
      parseLoop delimiter rest rows (currentRow ++ [current]) [] inQuotes
    else if ((ch =? LF) || ((ch =? CR) && negb (nextIs LF)))
            && negb inQuotes then
      if (ch =? CR) && nextIs LF then
        parseLoop delimiter after (rows ++ [currentRow ++ [current]]) [] []
                  inQuotes
      else
        parseLoop delimiter rest (rows ++ [currentRow ++ [current]]) [] []
                  inQuotes
    else
      parseLoop delimiter rest rows currentRow (current ++ [ch]) inQuotes.
Proof. reflexivity. Qed.

Lemma parseLoop_rows (delimiter : jsstring) (n : nat) :
  forall text rows currentRow current inQuotes,
    (List.length text <= n)%nat ->
    Forall (fun row => (0 < List.length row)%nat) rows ->
    (0 < List.length
           (parseLoop delimiter text rows currentRow current inQuotes))%nat
    /\ Forall (fun row => (0 < List.length row)%nat)
              (parseLoop delimiter text rows currentRow current inQuotes).
Proof.
  assert (Hpush : forall rows (row : list jsstring) (f : jsstring),
             Forall (fun row => (0 < List.length row)%nat) rows ->
             Forall (fun row => (0 < List.length row)%nat)
                    (rows ++ [row ++ [f]])).
  { intros rows row f H. apply Forall_app. split; [assumption|].
    constructor; [|constructor]. rewrite length_app. simpl. lia. }
  assert (Hend : forall rows cr cur,
             Forall (fun row => (0 < List.length row)%nat) rows ->
             (0 < List.length (parseLoop delimiter [] rows cr cur false))%nat
             /\ Forall (fun row => (0 < List.length row)%nat)
                       (parseLoop delimiter [] rows cr cur false)).
  { intros rows cr cur H. simpl. rewrite finishRows_always.
    split; [rewrite length_app; simpl; lia | now apply Hpush]. }
  induction n as [|n IH]; intros text rows cr cur q Hlen Hrows.
  - destruct text; [|simpl in Hlen; lia]. now apply (Hend rows cr cur).
  - destruct text as [|ch rest]; [now apply (Hend rows cr cur)|].
    simpl in Hlen. rewrite parseLoop_cons. cbv zeta.
    set (after := match rest with _ :: after => after | [] => rest end).
    assert (Hafter : (List.length after <= n)%nat)
      by (unfold after; destruct rest; simpl in *; lia).
    repeat match goal with
           | |- context [if ?b then _ else _] => destruct b
           end;
      apply IH; try lia; try assumption; now apply Hpush.
Qed.

Lemma parseCSVRows_fields (csvString delimiter : jsstring) :
  (0 < List.length (parseCSVRows csvString delimiter))%nat /\
  Forall (fun row => (0 < List.length row)%nat)
         (parseCSVRows csvString delimiter).
Proof.
  unfold parseCSVRows.
  apply (parseLoop_rows delimiter (List.length csvString)); auto.
Qed.

(** The tokenizer always returns at least one row, and every row it
    returns holds at least one field. *)
Theorem tokenizer_rows_have_fields (csvString delimiter : jsstring) :
  (0 < List.length (parseCSVRows csvString delimiter))%nat /\
  Forall (fun row => (0 < List.length row)%nat)
         (parseCSVRows csvString delimiter).
Proof. exact (parseCSVRows_fields csvString delimiter). Qed.

Lemma escape_value_encodes (v : jsvalue) :
  encodes COMMA (escapeCSVValue v false) (String_ v).
Proof.
  unfold escapeCSVValue.
  pose proof (plain_includes (String_ v)) as H.
  destruct (includes (String_ v) COMMA || includes (String_ v) QUOTE
            || includes (String_ v) LF || includes (String_ v) CR).
  - apply enc_quoted.
  - apply enc_plain. exact H.
Qed.

(** Rows of arbitrary strings, each field written by the escaper, the
    fields joined by commas and the rows by line feeds, are tokenized back
    to the same rows of strings. *)
Theorem escaped_rows_parse_back (rows : list (list jsstring)) :
  (0 < List.length rows)%nat ->
  forallb (fun row => (0 <? List.length row)%nat) rows = true ->
  parseCSVRows
    (join [LF]
       (map (fun row =>
               join [COMMA] (map (fun s => escapeCSVValue (VStr s) false) row))
            rows))
    [COMMA]
  = rows.
Proof.
  intros Hlen Hrows.
  rewrite <- (map_map (map (fun s => escapeCSVValue (VStr s) false))
                      (join [COMMA])).
  apply parseCSVRows_written.
  - rewrite <- (map_id rows) at 2. apply Forall2_map_same. intros row _.
    rewrite <- (map_id row) at 2. apply Forall2_map_same. intros s _.
    apply (escape_value_encodes (VStr s)).
  - apply Forall_forall. intros ts Hts.
    apply in_map_iff in Hts as (row & <- & Hrow).
    rewrite forallb_forall in Hrows. specialize (Hrows row Hrow).
    apply Nat.ltb_lt in Hrows. destruct row; [simpl in Hrows; lia|discriminate].
  - destruct rows; [simpl in Hlen; lia | discriminate].
Qed.

Lemma escaped_rows_parse_back_witness :
  parseCSVRows
    (join [LF]
       (map (fun row =>
               join [COMMA] (map (fun s => escapeCSVValue (VStr s) false) row))
            trickyRows))
    [COMMA]
  = trickyRows.
Proof.
  apply (escaped_rows_parse_back trickyRows).
  - simpl. lia.
  - reflexivity.
Defined.

(** ** Delimiters *)

(** With any delimiter of one code unit other than the quote and LF, a
    text of lines of fields, each written as it is (when it holds no
    delimiter, quote, LF or CR) or between quotes with its quotes doubled,
    tokenizes into those fields. *)
Theorem fields_parse_back_with_any_delimiter (delimiter : char)
  (written fields : list (list jsstring)) :
  (delimiter =? QUOTE) = false -> (delimiter =? LF) = false ->
  Forall2 (Forall2 (encodes delimiter)) written fields ->
  Forall (fun line => line <> []) written -> written <> [] ->
  parseCSVRows (join [LF] (map (join [delimiter]) written)) [delimiter]
  = fields.
Proof.
  intros Hq Hlf H Hne Hnn. unfold parseCSVRows.
  now rewrite (run_lines delimiter Hq Hlf written fields [] H Hne Hnn).
Qed.

Lemma fields_parse_back_with_any_delimiter_witness :
  parseCSVRows (str "a,b;" ++ [QUOTE] ++ str "c;d" ++ [QUOTE] ++ [LF] ++ str ";")
               (str ";")
  = [[str "a,b"; str "c;d"]; [[]; []]].
Proof.
  apply (fields_parse_back_with_any_delimiter 59
           [[str "a,b"; [QUOTE] ++ doubleQuotes (str "c;d") ++ [QUOTE]]; [[]; []]]
           [[str "a,b"; str "c;d"]; [[]; []]]);
    try reflexivity; try discriminate.
  - repeat constructor.
  - repeat constructor; discriminate.
Defined.

Lemma parseLoop_unsplit (delimiter : jsstring) (n : nat) :
  (forall ch, (ch =? QUOTE) = false -> streq [ch] delimiter = false) ->
  forall text rows current inQuotes,
    (List.length text <= n)%nat ->
    Forall (fun row => List.length row = 1%nat) rows ->
    Forall (fun row => List.length row = 1%nat)
           (parseLoop delimiter text rows [] current inQuotes).
Proof.
  intros Hd.
  assert (Hpush : forall rows (f : jsstring),
             Forall (fun row => List.length row = 1%nat) rows ->
             Forall (fun row => List.length row = 1%nat) (rows ++ [[] ++ [f]])).
  { intros rows f H. apply Forall_app. split; [assumption|].
    constructor; [reflexivity | constructor]. }
  assert (Hend : forall rows cur q,
             Forall (fun row => List.length row = 1%nat) rows ->
             Forall (fun row => List.length row = 1%nat)
                    (parseLoop delimiter [] rows [] cur q)).
  { intros rows cur q H. simpl. rewrite finishRows_always. now apply Hpush. }
  induction n as [|n IH]; intros text rows cur q Hlen Hrows.
  - destruct text; [|simpl in Hlen; lia]. now apply Hend.
  - destruct text as [|ch rest]; [now apply Hend|].
    simpl in Hlen. rewrite parseLoop_cons. cbv zeta.
    set (after := match rest with _ :: after => after | [] => rest end).
    assert (Hafter : (List.length after <= n)%nat)
      by (unfold after; destruct rest; simpl in *; lia).
    destruct (ch =? QUOTE) eqn:Eq.
    + repeat match goal with
             | |- context [if ?b then _ else _] => destruct b
             end; apply IH; try lia; assumption.
    + match goal with
      | |- context [streq ?a delimiter] =>
          assert (E : streq a delimiter = false) by exact (Hd ch Eq);
          rewrite E
      end.
      cbn [andb].
      repeat match goal with
             | |- context [if ?b then _ else _] => destruct b
             end;
        apply IH; try lia; try assumption; now apply Hpush.
Qed.

(** A delimiter that is not one code unit long, or is the quote, never
    separates fields: every row the tokenizer returns has one field. *)
Theorem odd_delimiter_never_splits (csvString delimiter : jsstring) :
  negb (List.length delimiter =? 1)%nat || streq delimiter [QUOTE] = true ->
  Forall (fun row => List.length row = 1%nat)
         (parseCSVRows csvString delimiter).
Proof.
  intros H. unfold parseCSVRows.
  apply (parseLoop_unsplit delimiter (List.length csvString)); auto.
  intros ch Hq. destruct (streq [ch] delimiter) eqn:E; [|reflexivity].
  apply streq_eq in E. subst delimiter. cbn [List.length Nat.eqb negb orb] in H.
  apply streq_eq in H. inversion H. subst ch. discriminate Hq.
Qed.

Lemma odd_delimiter_never_splits_witness :
  Forall (fun row => List.length row = 1%nat)
         (parseCSVRows (str "a||b" ++ [LF] ++ str "c||d") (str "||")).
Proof.
  apply (odd_delimiter_never_splits (str "a||b" ++ [LF] ++ str "c||d")
                                    (str "||")).
  reflexivity.
Defined.

(** ** More on the inference *)

Lemma spanDigits_digits (s a r : jsstring) :
  spanDigits s = (a, r) -> forallb isDigit a = true.
Proof.
  revert a r. induction s as [|c s IH]; simpl; intros a r H.
  - inversion H. reflexivity.
  - destruct (isDigit c) eqn:E.
    + destruct (spanDigits s) as [ds rest]. inversion H; subst.
      simpl. rewrite E. now apply (IH ds r).
    + inversion H. reflexivity.
Qed.

Lemma scanFraction_digits_out (s frac r : jsstring) :
  scanFraction s = (frac, r) -> forallb isDigit frac = true.
Proof.
  unfold scanFraction. destruct s as [|c s'].
  - intros H. inversion H. reflexivity.
  - destruct (c =? 46).
    + destruct (spanDigits s') as [[|x ds] rest] eqn:E; intros H;
        inversion H; subst; [reflexivity|].
      now apply (spanDigits_digits s' (x :: ds) r).
    + intros H. inversion H. reflexivity.
Qed.

Lemma scanNumeral_digits (s : jsstring) (m : numeral) :
  scanNumeral s = Some m -> forallb isDigit (nint m ++ nfrac m) = true.
Proof.
  unfold scanNumeral, scanUnsigned. destruct (scanSign s) as [neg s1].
  destruct (spanDigits s1) as [[|x int] s2] eqn:E1; [discriminate|].
  destruct (scanFraction s2) as [frac s3] eqn:E2.
  destruct (scanExponent s3); [|discriminate].
  intros H. inversion H. subst. cbn [nint nfrac].
  rewrite forallb_app.
  rewrite (spanDigits_digits _ _ _ E1), (scanFraction_digits_out _ _ _ E2).
  reflexivity.
Qed.

Lemma dropZeros_idem (s : jsstring) : dropZeros (dropZeros s) = dropZeros s.
Proof.
  induction s as [|c s IH]; simpl; [reflexivity|].
  destruct (c =? 48) eqn:E; [assumption|]. simpl. now rewrite E.
Qed.

Lemma dropZeros_digits (s : jsstring) :
  forallb isDigit s = true -> forallb isDigit (dropZeros s) = true.
Proof.
  induction s as [|c s IH]; simpl; [reflexivity|].
  intros H. apply andb_true_iff in H as [Hc Hs].
  destruct (c =? 48); [auto|]. simpl. now rewrite Hc, Hs.
Qed.

Lemma dropZeros_split (s : jsstring) :
  exists k, s = repeat 48 k ++ dropZeros s.
Proof.
  induction s as [|c s [k IH]]; simpl.
  - exists 0%nat. reflexivity.
  - destruct (c =? 48) eqn:E.
    + apply N.eqb_eq in E. subst c. exists (S k). simpl. now rewrite <- IH.
    + exists 0%nat. reflexivity.
Qed.

(** The number of a scanned numeral has its digits in canonical form. *)
Lemma numeralValue_is_canonical (m : numeral) (d : decimal) :
  forallb isDigit (nint m ++ nfrac m) = true ->
  numeralValue m = Finite d -> canonical d = true.
Proof.
  intros Hd. unfold numeralValue.
  remember (dropZeros (nint m ++ nfrac m)) as sig eqn:Esig.
  remember (rev (dropZeros (rev sig))) as t eqn:Et.
  assert (Hsig : forallb isDigit sig = true)
    by (subst sig; now apply dropZeros_digits).
  assert (Ht : forallb isDigit t = true).
  { subst t. rewrite forallb_rev. apply dropZeros_digits.
    now rewrite forallb_rev. }
  assert (Hrev : dropZeros (rev t) = rev t).
  { subst t. rewrite rev_involutive. apply dropZeros_idem. }
  assert (Hhead : dropZeros t = t).
  { destruct t as [|c t']; [reflexivity|].
    destruct (dropZeros_split (rev sig)) as [k Hk].
    apply (f_equal (@rev _)) in Hk.
    rewrite rev_involutive, rev_app_distr, rev_repeat in Hk.
    assert (Hk' : sig = (c :: t') ++ repeat 48 k) by (rewrite Et; exact Hk).
    assert (Hs : dropZeros sig = sig) by (subst sig; apply dropZeros_idem).
    rewrite Hk' in Hs. simpl in Hs. apply dropZeros_fixed in Hs.
    simpl. now rewrite Hs. }
  clear Et. destruct t as [|c t'].
  - intros H. inversion H. reflexivity.
  - destruct (overflows (c :: t') _) eqn:Hov; [discriminate|].
    intros H. inversion H. subst d. unfold canonical.
    cbn [digits negative point].
    rewrite Ht, Hhead, Hrev, !streq_refl, Hov. reflexivity.
Qed.

Lemma inferValue_kinds (field : jsstring) :
  inferValue field = VNull \/
  (exists d, inferValue field = VNum (Finite d) /\ canonical d = true) \/
  inferValue field = VStr field.
Proof.
  unfold inferValue.
  destruct (streq (trim field) [] || streq (trim field) (str "null")
            || streq (trim field) (str "NULL")); [now left|].
  right.
  destruct (numberPattern (trim field) && negb (hasLeadingZeros (trim field)));
    [|now right].
  unfold Number_.
  destruct (scanNumeral (trim field)) as [m|] eqn:E; [|now right].
  destruct (numeralValue m) as [| neg | d] eqn:Ev; try (now right).
  left. exists d. split; [reflexivity|].
  apply (numeralValue_is_canonical m d); [|assumption].
  now apply (scanNumeral_digits (trim field)).
Qed.

(** The inference answers null, a finite number in canonical form, or the
    field itself, untrimmed; it never answers [undefined], a boolean,
    [NaN] or an infinity. *)
Theorem inference_result_kinds (field : jsstring) :
  inferValue field = VNull \/
  (exists d, inferValue field = VNum (Finite d) /\ canonical d = true) \/
  inferValue field = VStr field.
Proof. exact (inferValue_kinds field). Qed.

(** The inference answers null exactly for the fields whose trimmed text
    is empty, [null] or [NULL]. *)
Theorem inference_null_iff (field : jsstring) :
  inferValue field = VNull <->
  trim field = [] \/ trim field = str "null" \/ trim field = str "NULL".
Proof.
  rewrite <- !streq_eq, <- !orb_true_iff, orb_assoc.
  unfold inferValue.
  destruct (streq (trim field) [] || streq (trim field) (str "null")
            || streq (trim field) (str "NULL")).
  - tauto.
  - split; [|discriminate].
    repeat match goal with
           | |- context [if ?b then _ else _] => destruct b
           end; discriminate.
Qed.

(** What the inference answers is stable: written by the writer and read
    again, it is the same value. *)
Theorem inference_is_stable (field : jsstring) :
  roundTripCell (inferValue field) = true /\
  inferValue (fieldOf (inferValue field)) = inferValue field.
Proof.
  assert (H : roundTripCell (inferValue field) = true).
  { destruct (inferValue_kinds field) as [E | [(d & E & Hd) | E]];
      rewrite E; cbn [roundTripCell]; [reflexivity | assumption |].
    unfold keptAsString. now rewrite E. }
  split; [assumption | now apply cell_round_trip].
Qed.

(** A finite number in canonical form is written without quotes, as text
    that holds no comma, quote or line break, and the inference reads that
    text as the same number. *)
Theorem written_number_reads_back (d : decimal) :
  canonical d = true ->
  cellText (VNum (Finite d)) = numberToString (Finite d) /\
  plain COMMA (numberToString (Finite d)) = true /\
  inferValue (numberToString (Finite d)) = VNum (Finite d).
Proof.
  intros H. repeat split.
  - now apply plain_number.
  - now apply inferValue_number.
Qed.

Lemma written_number_reads_back_witness :
  cellText (VNum (Finite (Decimal true (str "15") (-8))))
  = numberToString (Finite (Decimal true (str "15") (-8))) /\
  plain COMMA (numberToString (Finite (Decimal true (str "15") (-8)))) = true /\
  inferValue (str "-1.5e-9") = VNum (Finite (Decimal true (str "15") (-8))).
Proof.
  apply (written_number_reads_back (Decimal true (str "15") (-8))).
  reflexivity.
Defined.

(** ** More on the reader *)

Lemma keysOrder_In (ks : list jsstring) (k : jsstring) :
  In k (keysOrder ks) <-> In k ks.
Proof.
  unfold keysOrder. rewrite in_app_iff, filter_In, in_map_iff. split.
  - intros [([i k'] & E & H) | [H _]]; [|assumption].
    simpl in E. subst k'. now apply indexKeys_In in H.
  - intros H. unfold isNamedKey. destruct (arrayIndex k) as [i|] eqn:E.
    + left. exists (i, k). split; [reflexivity|].
      apply indexKeys_In. auto.
    + right. auto.
Qed.

Lemma keysOrder_named (ks : list jsstring) :
  forallb isNamedKey ks = true -> keysOrder ks = ks.
Proof.
  intros H. unfold keysOrder.
  pose proof (indexKeys_app_named [] ks H) as E. simpl in E.
  rewrite E. simpl. now apply filter_all.
Qed.

Lemma nonblank_guard (s : jsstring) :
  forallb isWhiteSpace s = false ->
  streq s [] || streq (trim s) [] = false.
Proof.
  intros H. rewrite streq_trim_nil, H.
  destruct s; [discriminate | reflexivity].
Qed.

(** The all-null row of a text with headers only is the row of a data row
    without fields. *)
Lemma nullRow_is_assignCells (cols : list jsstring) (row : literal) :
  fold_left (fun emptyRow col => assign emptyRow col VNull) cols row
  = assignCells cols [] row.
Proof.
  revert row. induction cols as [|c cs IH]; intros row; [reflexivity|].
  simpl fold_left. rewrite IH. reflexivity.
Qed.

Lemma inferValue_plain (f : jsstring) : plainCell (inferValue f) = true.
Proof.
  destruct (inferValue_kinds f) as [E | [(d & E & _) | E]];
    rewrite E; reflexivity.
Qed.

Lemma ownCells_value (cols vals : list jsstring) (row : obj) (c : jsstring) :
  In c cols -> exists f, obj_get (ownCells cols vals row) c = inferValue f.
Proof.
  revert vals row. induction cols as [|c0 cs IH]; intros vals row Hin.
  - destruct Hin.
  - simpl. destruct (In_dec_str c cs) as [Hc | Hc].
    + now apply IH.
    + destruct Hin as [-> | Hin]; [|contradiction].
      rewrite ownCells_other by assumption.
      rewrite obj_get_set_same. eauto.
Qed.

Lemma filteredRowsOf_fields (csvString : jsstring)
  (options : option CSVImportOptions) :
  Forall (fun row => (0 < List.length row)%nat)
         (filteredRowsOf csvString options).
Proof.
  unfold filteredRowsOf. cbv zeta.
  pose proof (parseCSVRows_fields csvString
                (optionOr options import_delimiter [COMMA])) as [_ H].
  destruct (optionOr options skipEmptyLines true); [|exact H].
  apply Forall_forall. intros row Hrow. apply filter_In in Hrow as [Hrow _].
  rewrite Forall_forall in H. now apply H.
Qed.

Lemma NoDup_map_inj {A B : Type} (f : A -> B) (l : list A) :
  (forall x y, In x l -> In y l -> f x = f y -> x = y) ->
  NoDup l -> NoDup (map f l).
Proof.
  intros Hinj Hnd. induction Hnd as [|a l Ha Hnd IH]; simpl; constructor.
  - intros Hin. apply in_map_iff in Hin as (b & E & Hb).
    assert (b = a) by (apply Hinj; simpl; auto). subst b. contradiction.
  - apply IH. intros x y Hx Hy. apply Hinj; simpl; auto.
Qed.

Lemma syntheticNames_length (firstRow : list jsstring) :
  List.length (syntheticNames firstRow) = List.length firstRow.
Proof. unfold syntheticNames. now rewrite length_map, length_seq. Qed.

Lemma syntheticNames_NoDup (firstRow : list jsstring) :
  NoDup (syntheticNames firstRow).
Proof.
  unfold syntheticNames. apply NoDup_map_inj; [|apply seq_NoDup].
  intros x y _ _ E. apply app_inv_head in E.
  apply (f_equal digitsValue) in E. rewrite !digitsValue_digitsOfN in E. lia.
Qed.

Lemma syntheticNames_named (firstRow : list jsstring) :
  forallb isNamedKey (syntheticNames firstRow) = true.
Proof.
  unfold syntheticNames. apply forallb_forall. intros k Hk.
  apply in_map_iff in Hk as (i & <- & _).
  unfold isNamedKey.
  destruct (arrayIndex _) as [n|] eqn:E; [|reflexivity].
  apply arrayIndex_Some in E as [_ E].
  pose proof (isDigit_digitsOfN n) as Hd.
  rewrite <- E in Hd. discriminate Hd.
Qed.

Lemma syntheticNames_ordinary (firstRow : list jsstring) :
  arr_includes (syntheticNames firstRow) PROTO = false.
Proof.
  destruct (arr_includes (syntheticNames firstRow) PROTO) eqn:E;
    [|reflexivity].
  apply arr_includes_In in E. unfold syntheticNames in E.
  apply in_map_iff in E as (i & E & _). discriminate E.
Qed.

Lemma parseDataRow_keys (cols vals : list jsstring) :
  arr_includes cols PROTO = false ->
  NoDup cols -> map fst (parseDataRow cols vals) = cols.
Proof.
  intros Hp Hnd. rewrite parseDataRow_own by assumption.
  rewrite ownCells_fresh; [reflexivity | assumption | simpl; tauto].
Qed.

(** Empty and white-space-only texts read as the table with no rows,
    whatever the options. *)
Theorem blank_text_reads_empty (csvString : jsstring)
  (options : option CSVImportOptions) :
  forallb isWhiteSpace csvString = true ->
  fromCSV csvString options = newDataFrame [].
Proof.
  intros H. unfold fromCSV. rewrite streq_trim_nil, H, orb_true_r.
  reflexivity.
Qed.

Lemma blank_text_reads_empty_witness :
  fromCSV (str "  " ++ [CR; LF; 9; 160]) keepEmptyLines = newDataFrame [].
Proof.
  apply (blank_text_reads_empty (str "  " ++ [CR; LF; 9; 160]) keepEmptyLines).
  reflexivity.
Defined.

(** What [fromCSV] builds: every row is made by [assignCells] from [{}],
    under the names of the header, or the numbered names. *)
Lemma fromCSV_built (csvString : jsstring) (options : option CSVImportOptions) :
  exists rows : list obj,
    fromCSV csvString options = newDataFrame rows /\
    forall row, In row rows ->
      exists firstRow rest vals,
        filteredRowsOf csvString options = firstRow :: rest /\
        row = props (assignCells
                       (if optionOr options hasHeaders true then firstRow
                        else syntheticNames firstRow)
                       vals emptyObject).
Proof.
  unfold fromCSV.
  destruct (streq csvString [] || streq (trim csvString) []);
    [exists []; split; [reflexivity | intros ? []]|].
  destruct (filteredRowsOf csvString options) as [|firstRow more];
    [exists []; split; [reflexivity | intros ? []]|].
  set (columnNames := if optionOr options hasHeaders true then firstRow
                      else syntheticNames firstRow).
  set (dataRows := skipn (if optionOr options hasHeaders true then 1%nat
                          else 0%nat) (firstRow :: more)).
  destruct columnNames as [|c cs] eqn:Ec;
    [exists []; split; [reflexivity | intros ? []]|].
  destruct (map (parseDataRow (c :: cs)) dataRows) as [|r rs] eqn:Ed.
  - eexists. split; [reflexivity|].
    intros row [<- | []]. exists firstRow, more, [].
    split; [reflexivity|]. rewrite nullRow_is_assignCells.
    fold columnNames. now rewrite Ec.
  - exists (r :: rs). split; [reflexivity|]. rewrite <- Ed.
    intros row Hrow. apply in_map_iff in Hrow as (vals & <- & _).
    exists firstRow, more, (padValues vals (List.length (c :: cs))).
    split; [reflexivity|]. fold columnNames. now rewrite Ec.
Qed.

(** A table [fromCSV] returns from a text whose header does not hold the
    name [__proto__] is rectangular: each row has the table's columns as
    its keys, and each cell is null, a finite number or a string (never
    [undefined], a boolean, [NaN] or an infinity). *)
Theorem read_table_is_rectangular (csvString : jsstring)
  (options : option CSVImportOptions) (firstRow : list jsstring)
  (rest : list (list jsstring)) :
  filteredRowsOf csvString options = firstRow :: rest ->
  (optionOr options hasHeaders true = true ->
   arr_includes firstRow PROTO = false) ->
  Forall (fun row =>
            (forall c, In c (map fst row)
                       <-> In c (getColumnNames (fromCSV csvString options)))
            /\ Forall (fun c => plainCell (obj_get row c) = true)
                      (getColumnNames (fromCSV csvString options)))
         (getRows (fromCSV csvString options)).
Proof.
  intros Hfirst Hproto.
  destruct (fromCSV_built csvString options) as (rows & E & Hrows).
  rewrite E. unfold getRows. rewrite newDataFrame_data.
  set (cols := if optionOr options hasHeaders true then firstRow
               else syntheticNames firstRow).
  assert (Hcols : arr_includes cols PROTO = false).
  { unfold cols. destruct (optionOr options hasHeaders true);
      [now apply Hproto | apply syntheticNames_ordinary]. }
  assert (Hshape : forall row, In row rows ->
                     exists vals, row = ownCells cols vals []).
  { intros row Hrow.
    destruct (Hrows row Hrow) as (firstRow' & rest' & vals & E' & ->).
    rewrite Hfirst in E'. inversion E'. subst firstRow' rest'.
    fold cols. rewrite assignCells_own by assumption.
    exists vals. reflexivity. }
  destruct rows as [|first more]; [constructor|].
  unfold getColumnNames. cbn [newDataFrame columns].
  assert (Hkeys : forall row, In row (first :: more) ->
                    forall c, In c (map fst row) <-> In c cols).
  { intros row Hrow c. destruct (Hshape row Hrow) as [vals ->].
    rewrite ownCells_keys. simpl. tauto. }
  assert (Hfirstkeys : forall c, In c (Object_keys first) <-> In c cols).
  { intros c. rewrite Object_keys_order, keysOrder_In.
    apply Hkeys. now left. }
  apply Forall_forall. intros row Hrow. split.
  - intros c. rewrite Hfirstkeys. now apply Hkeys.
  - apply Forall_forall. intros c Hc. apply Hfirstkeys in Hc.
    destruct (Hshape row Hrow) as [vals ->].
    destruct (ownCells_value cols vals [] c Hc) as [f ->].
    apply inferValue_plain.
Qed.

Lemma read_table_is_rectangular_witness :
  Forall (fun row =>
            (forall c, In c (map fst row)
                       <-> In c (getColumnNames
                                   (fromCSV (str "a,a,b" ++ [LF] ++ str "1")
                                            None)))
            /\ Forall (fun c => plainCell (obj_get row c) = true)
                      (getColumnNames
                         (fromCSV (str "a,a,b" ++ [LF] ++ str "1") None)))
         (getRows (fromCSV (str "a,a,b" ++ [LF] ++ str "1") None)).
Proof.
  apply (read_table_is_rectangular (str "a,a,b" ++ [LF] ++ str "1") None
           [str "a"; str "a"; str "b"] [[str "1"]]).
  - reflexivity.
  - intros _. reflexivity.
Defined.

Lemma assign_not_NaN (o : literal) (k c field : jsstring) :
  isNaNValue (obj_get (props o) c) = false ->
  isNaNValue (obj_get (props (assign o k (inferValue field))) c) = false.
Proof.
  intros H. destruct (streq k c) eqn:E.
  - apply streq_eq in E. subst c. unfold assign.
    destruct (streq PROTO k && inherits o
              && negb (arr_includes (map fst (props o)) k)).
    + destruct (inferValue field); assumption.
    + cbn [props]. rewrite obj_get_set_same.
      pose proof (inferValue_plain field) as Hp.
      destruct (inferValue field) as [| | |[| |]|]; try reflexivity.
      discriminate Hp.
  - rewrite assign_get_other; [assumption|].
    intros ->. now rewrite streq_refl in E.
Qed.

Lemma assignCells_not_NaN (cols vals : list jsstring) (o : literal)
  (c : jsstring) :
  isNaNValue (obj_get (props o) c) = false ->
  isNaNValue (obj_get (props (assignCells cols vals o)) c) = false.
Proof.
  revert vals o. induction cols as [|k ks IH]; intros vals o H; [assumption|].
  cbn [assignCells]. cbv zeta. apply IH. now apply assign_not_NaN.
Qed.

(** No cell of a table read by [fromCSV] is [NaN]: for each of its
    columns the NaN mask is all false, [hasNaN] is false and [countNaN]
    is 0. *)
Theorem read_table_has_no_NaN (csvString : jsstring)
  (options : option CSVImportOptions) (columnName : jsstring) :
  arr_includes (getColumnNames (fromCSV csvString options)) columnName = true ->
  isNaN (fromCSV csvString options) columnName
  = Ok (repeat false (length (fromCSV csvString options))) /\
  hasNaN (fromCSV csvString options) columnName = Ok false /\
  countNaN (fromCSV csvString options) columnName = Ok 0%nat.
Proof.
  intros Hcol.
  assert (Hmask : isNaN (fromCSV csvString options) columnName
                  = Ok (repeat false (length (fromCSV csvString options)))).
  { unfold isNaN. rewrite Hcol. cbn [negb]. f_equal.
    destruct (fromCSV_built csvString options) as (rows & E & Hrows).
    rewrite E. unfold length, getRows. rewrite newDataFrame_data.
    clear E Hcol. induction rows as [|row rows IH]; [reflexivity|].
    simpl. rewrite IH by (intros r Hr; apply Hrows; now right). f_equal.
    destruct (Hrows row (or_introl eq_refl)) as (? & ? & vals & _ & ->).
    now apply assignCells_not_NaN. }
  unfold hasNaN, countNaN. rewrite Hmask. cbn [bind].
  split; [reflexivity|]. clear Hmask.
  induction (length (fromCSV csvString options)) as [|n IH]; [split; reflexivity|].
  simpl. exact IH.
Qed.

Lemma read_table_has_no_NaN_witness :
  hasNaN (fromCSV (str "a,b" ++ [LF] ++ str "NaN,Infinity" ++ [LF] ++ str "1") None)
         (str "a") = Ok false.
Proof.
  apply (read_table_has_no_NaN
           (str "a,b" ++ [LF] ++ str "NaN,Infinity" ++ [LF] ++ str "1") None
           (str "a")).
  reflexivity.
Defined.

(** Without a header row the columns are named column1, column2, ... after
    the fields of the first kept row, in that order, and every kept row,
    the first included, is a data row. *)
Theorem headerless_text_gets_numbered_columns (csvString : jsstring)
  (options : option CSVImportOptions) (firstRow : list jsstring)
  (rest : list (list jsstring)) :
  forallb isWhiteSpace csvString = false ->
  optionOr options hasHeaders true = false ->
  filteredRowsOf csvString options = firstRow :: rest ->
  getColumnNames (fromCSV csvString options) = syntheticNames firstRow /\
  getRows (fromCSV csvString options)
  = map (parseDataRow (syntheticNames firstRow)) (firstRow :: rest).
Proof.
  intros Hblank Hh Hrows.
  pose proof (filteredRowsOf_fields csvString options) as Hf.
  rewrite Hrows in Hf. apply Forall_inv in Hf.
  unfold fromCSV. rewrite (nonblank_guard _ Hblank), Hrows, Hh.
  pose proof (syntheticNames_length firstRow) as Hlen.
  pose proof (syntheticNames_NoDup firstRow) as Hnd.
  pose proof (syntheticNames_named firstRow) as Hnamed.
  pose proof (syntheticNames_ordinary firstRow) as Hord.
  destruct (syntheticNames firstRow) as [|c cs]; [simpl in Hlen; lia|].
  cbn [skipn map]. unfold getColumnNames, getRows.
  rewrite newDataFrame_data. cbn [newDataFrame columns].
  split; [|reflexivity].
  rewrite Object_keys_order, parseDataRow_keys by assumption.
  now apply keysOrder_named.
Qed.

Lemma headerless_text_gets_numbered_columns_witness :
  getColumnNames (fromCSV (str "x,y" ++ [LF] ++ str "1") noHeaders)
  = syntheticNames [str "x"; str "y"] /\
  getRows (fromCSV (str "x,y" ++ [LF] ++ str "1") noHeaders)
  = map (parseDataRow (syntheticNames [str "x"; str "y"]))
        [[str "x"; str "y"]; [str "1"]].
Proof.
  apply (headerless_text_gets_numbered_columns
           (str "x,y" ++ [LF] ++ str "1") noHeaders
           [str "x"; str "y"] [[str "1"]]); reflexivity.
Defined.

(** With a header row of distinct names, none of them [__proto__], the
    columns are those names in the order JavaScript lists keys
    (array-index names first, ascending), which is the header's own order
    when no name is an array index; the table has one row per data row,
    and one row when there is none. *)
Theorem header_names_become_columns (csvString : jsstring)
  (options : option CSVImportOptions) (header : list jsstring)
  (dataRows : list (list jsstring)) :
  forallb isWhiteSpace csvString = false ->
  optionOr options hasHeaders true = true ->
  filteredRowsOf csvString options = header :: dataRows ->
  distinct header = true ->
  arr_includes header PROTO = false ->
  getColumnNames (fromCSV csvString options) = keysOrder header /\
  (forallb isNamedKey header = true ->
   getColumnNames (fromCSV csvString options) = header) /\
  length (fromCSV csvString options) = Nat.max 1 (List.length dataRows).
Proof.
  intros Hblank Hh Hrows Hdist Hproto.
  apply distinct_NoDup in Hdist.
  pose proof (filteredRowsOf_fields csvString options) as Hf.
  rewrite Hrows in Hf. apply Forall_inv in Hf.
  assert (Hcols : getColumnNames (fromCSV csvString options) = keysOrder header
                  /\ length (fromCSV csvString options)
                     = Nat.max 1 (List.length dataRows)).
  { unfold fromCSV. rewrite (nonblank_guard _ Hblank), Hrows, Hh.
    destruct header as [|h hs] eqn:Eh; [simpl in Hf; lia|]. rewrite <- Eh in *.
    cbn [skipn]. unfold getColumnNames, length.
    destruct dataRows as [|r rs].
    - cbn [map]. rewrite newDataFrame_data. cbn [newDataFrame columns].
      split; [|reflexivity].
      rewrite Object_keys_order, nullRow_is_assignCells.
      rewrite assignCells_own by assumption. cbn [props].
      rewrite ownCells_fresh; [reflexivity | assumption | simpl; tauto].
    - cbn [map]. rewrite newDataFrame_data. cbn [newDataFrame columns].
      split.
      + now rewrite Object_keys_order, parseDataRow_keys.
      + simpl. now rewrite length_map. }
  destruct Hcols as [Hcols Hlen]. repeat split; try assumption.
  intros Hnamed. rewrite Hcols. now apply keysOrder_named.
Qed.

Lemma header_names_become_columns_witness :
  getColumnNames (fromCSV (str "b,7,a" ++ [LF] ++ str "1,2,3") None)
  = [str "7"; str "b"; str "a"].
Proof.
  apply (header_names_become_columns
           (str "b,7,a" ++ [LF] ++ str "1,2,3") None
           [str "b"; str "7"; str "a"] [[str "1"; str "2"; str "3"]]);
    reflexivity.
Defined.

(** A text that holds only a header row, without the name [__proto__],
    reads as one row with null under every header name. *)
Theorem headers_only_text_gives_null_row (csvString : jsstring)
  (options : option CSVImportOptions) (header : list jsstring) :
  forallb isWhiteSpace csvString = false ->
  optionOr options hasHeaders true = true ->
  filteredRowsOf csvString options = [header] ->
  arr_includes header PROTO = false ->
  length (fromCSV csvString options) = 1%nat /\
  Forall (fun name => getColumn (fromCSV csvString options) name = [VNull])
         header.
Proof.
  intros Hblank Hh Hrows Hproto.
  pose proof (filteredRowsOf_fields csvString options) as Hf.
  rewrite Hrows in Hf. apply Forall_inv in Hf.
  unfold fromCSV. rewrite (nonblank_guard _ Hblank), Hrows, Hh.
  destruct header as [|h hs] eqn:Eh; [simpl in Hf; lia|]. rewrite <- Eh in *.
  cbn [skipn map]. unfold length, getColumn.
  rewrite newDataFrame_data. split; [reflexivity|].
  apply Forall_forall. intros name Hname. cbn [map]. f_equal.
  rewrite nullRow_is_assignCells, assignCells_own by assumption.
  cbn [props]. apply ownCells_blank; [constructor | assumption].
Qed.

Lemma headers_only_text_gives_null_row_witness :
  length (fromCSV (str "name,age" ++ [LF]) None) = 1%nat /\
  Forall (fun name => getColumn (fromCSV (str "name,age" ++ [LF]) None) name
                      = [VNull])
         [str "name"; str "age"].
Proof.
  apply (headers_only_text_gives_null_row (str "name,age" ++ [LF]) None
           [str "name"; str "age"]); reflexivity.
Defined.

Lemma assignCells_app (a b vals : list jsstring) (row : literal) :
  assignCells (a ++ b) vals row
  = assignCells b (skipn (List.length a) vals) (assignCells a vals row).
Proof.
  revert vals row. induction a as [|x a IH]; intros vals row; [reflexivity|].
  simpl app. simpl assignCells. rewrite IH. f_equal.
  destruct vals; simpl; [now rewrite skipn_nil | reflexivity].
Qed.

Lemma hd_skipn_nth (n : nat) (l : list jsstring) :
  match skipn n l with v :: _ => v | [] => [] end = nth n l [].
Proof.
  revert l. induction n as [|n IH]; intros [|x l]; simpl; try reflexivity.
  apply IH.
Qed.

Lemma nth_padValues (vals : list jsstring) (n i : nat) :
  nth i (padValues vals n) [] = nth i vals [].
Proof.
  unfold padValues. destruct (Nat.lt_ge_cases i (List.length vals)) as [H | H].
  - now apply app_nth1.
  - rewrite app_nth2 by assumption. rewrite (nth_overflow vals) by assumption.
    generalize (i - List.length vals)%nat. intros j.
    generalize (n - List.length vals)%nat. intros m. revert j.
    induction m as [|m IH]; intros [|j]; simpl; auto.
Qed.

(** When a header repeats a name other than [__proto__], the cell under
    that name comes from the field below its last occurrence. *)
Theorem repeated_name_takes_last_field (before after rowValues : list jsstring)
  (name : jsstring) :
  streq PROTO name = false ->
  arr_includes after name = false ->
  obj_get (parseDataRow (before ++ name :: after) rowValues) name
  = inferValue (nth (List.length before) rowValues []).
Proof.
  intros Hname Hlast. unfold parseDataRow. cbv zeta.
  rewrite assignCells_app. cbn [assignCells]. cbv zeta.
  rewrite assignCells_get_other.
  - rewrite (assign_own _ _ _ Hname). cbn [props].
    rewrite obj_get_set_same, hd_skipn_nth. now rewrite nth_padValues.
  - intros Hin. apply arr_includes_In in Hin. congruence.
Qed.

Lemma repeated_name_takes_last_field_witness :
  obj_get (parseDataRow [str "id"; str "x"; str "id"; str "y"]
                        [str "1"; str "2"; str "3"; str "4"]) (str "id")
  = VNum (Number_ (str "3")).
Proof.
  apply (repeated_name_takes_last_field [str "id"; str "x"] [str "y"]
           [str "1"; str "2"; str "3"; str "4"] (str "id"));
    reflexivity.
Defined.

(** ** More on the writer *)

Lemma cellText_encodes (v : jsvalue) :
  wellFormed v = true -> encodes COMMA (cellText v) (fieldOf v).
Proof.
  intros Hw. unfold cellText, fieldOf.
  destruct v as [| |b|[|neg|d]|s]; cbn [isNullish isNumberValue].
  - now apply enc_plain.
  - now apply enc_plain.
  - apply escape_value_encodes.
  - apply escape_value_encodes.
  - apply enc_plain. destruct neg; reflexivity.
  - apply enc_plain. unfold escapeCSVValue. cbn [String_ numberToString].
    simpl in Hw. apply decimalToString_chars in Hw.
    unfold plain. apply forallb_forall. intros c Hc.
    rewrite forallb_forall in Hw. apply negb_true_iff.
    apply numeralChar_not_special. now apply Hw.
  - apply escape_value_encodes.
Qed.

(** The tokenizer splits the text of a table into the column names and,
    for each row, the text of each cell: empty for null and undefined,
    what [String] gives otherwise, without the quotes the writer added. *)
Theorem written_table_tokenizes (rows : list obj) :
  writableTable rows = true ->
  parseCSVRows (toCSV (newDataFrame rows) None) [COMMA]
  = getColumnNames (newDataFrame rows)
    :: map (fun row => map (fun c => fieldOf (obj_get row c))
                           (getColumnNames (newDataFrame rows)))
           rows.
Proof.
  destruct rows as [|firstRow rest]; [discriminate|].
  unfold writableTable. cbv zeta. intros H.
  apply andb_true_iff in H as [H Hcells].
  apply andb_true_iff in H as [Hlen Hplain].
  apply Nat.ltb_lt in Hlen.
  rewrite toCSV_text. cbv zeta.
  unfold getColumnNames. cbn [newDataFrame columns].
  set (cols := Object_keys firstRow) in *.
  assert (Hne : cols <> []) by (destruct cols; [simpl in Hlen; lia | discriminate]).
  apply parseCSVRows_written.
  - constructor; [now apply plain_row_encodes|].
    apply Forall2_map_same. intros row Hrow.
    apply Forall2_map_same. intros c Hc. apply cellText_encodes.
    rewrite forallb_forall in Hcells. specialize (Hcells row Hrow).
    rewrite forallb_forall in Hcells. now apply Hcells.
  - constructor; [assumption|].
    apply Forall_forall. intros r Hr. apply in_map_iff in Hr as (row & <- & _).
    destruct cols; [congruence | discriminate].
  - discriminate.
Qed.

Lemma written_table_tokenizes_witness :
  parseCSVRows
    (toCSV (newDataFrame
              [[(str "n", VStr (str "a,b")); (str "v", VBool true)];
               [(str "v", VNum NaN); (str "n", VNull)]]) None) [COMMA]
  = [[str "n"; str "v"]; [str "a,b"; str "true"]; [[]; str "NaN"]].
Proof.
  apply (written_table_tokenizes
           [[(str "n", VStr (str "a,b")); (str "v", VBool true)];
            [(str "v", VNum NaN); (str "n", VNull)]]).
  reflexivity.
Defined.

(** A table the program can build that has no rows is written as the
    empty text, with any options. *)
Theorem empty_table_writes_empty_text (df : DataFrame)
  (options : option CSVExportOptions) :
  reachable df -> length df = 0%nat -> toCSV df options = [].
Proof.
  intros Hr Hlen. destruct (reachable_is_new df Hr) as [rows ->].
  unfold length in Hlen. rewrite newDataFrame_data in Hlen.
  destruct rows; [|discriminate]. unfold toCSV. reflexivity.
Qed.

Lemma empty_table_writes_empty_text_witness :
  toCSV (fromCSV (str "  ") None) semicolon = [].
Proof.
  apply (empty_table_writes_empty_text (fromCSV (str "  ") None) semicolon).
  - apply reach_fromCSV.
  - reflexivity.
Defined.

(** ** More on the selection *)

Lemma verifyColumns_ok (cols names : list jsstring) :
  verifyColumns cols names = Ok tt
  <-> forallb (arr_includes cols) names = true.
Proof.
  induction names as [|c rest IH]; simpl; [tauto|].
  destruct (arr_includes cols c); simpl; [exact IH|].
  split; discriminate.
Qed.

Lemma verifyColumns_first_missing (cols names : list jsstring) (e : error) :
  verifyColumns cols names = Err e ->
  exists before name after,
    names = before ++ name :: after /\ e = UnknownColumn name /\
    forallb (arr_includes cols) before = true /\
    arr_includes cols name = false.
Proof.
  induction names as [|c rest IH]; simpl; [discriminate|].
  destruct (arr_includes cols c) eqn:E.
  - intros H. destruct (IH H) as (before & name & after & -> & -> & Hb & Hn).
    exists (c :: before), name, after. simpl. rewrite E. auto.
  - intros H. inversion H. exists [], c, rest. auto.
Qed.

Lemma selectRow_acc (names : list jsstring) (row acc : obj) (c : jsstring) :
  obj_get (fold_left (fun selectedRow col =>
                        obj_set selectedRow col (obj_get row col)) names acc) c
  = if arr_includes names c then obj_get row c else obj_get acc c.
Proof.
  revert acc. induction names as [|x xs IH]; intros acc; [reflexivity|].
  cbn [fold_left]. rewrite IH.
  replace (arr_includes (x :: xs) c) with (streq c x || arr_includes xs c)
    by reflexivity.
  destruct (arr_includes xs c); [now rewrite orb_true_r|].
  rewrite orb_false_r. destruct (streq c x) eqn:E.
  - apply streq_eq in E. subst x. apply obj_get_set_same.
  - apply obj_get_set_other. intros ->. now rewrite streq_refl in E.
Qed.

Lemma selectRow_own (names : list jsstring) (row : obj) :
  arr_includes names PROTO = false ->
  selectRow names row
  = fold_left (fun selectedRow col => obj_set selectedRow col (obj_get row col))
              names [].
Proof.
  intros H. unfold selectRow.
  change (@nil (jsstring * jsvalue)) with (props emptyObject).
  generalize emptyObject. induction names as [|c cs IH]; intros o;
    [reflexivity|].
  cbn [arr_includes existsb] in H. apply orb_false_iff in H as [Hc Hcs].
  cbn [fold_left]. rewrite (assign_own _ _ _ Hc). now rewrite (IH Hcs).
Qed.

Lemma selectRow_get (names : list jsstring) (row : obj) (c : jsstring) :
  arr_includes names PROTO = false ->
  In c names -> obj_get (selectRow names row) c = obj_get row c.
Proof.
  intros Hp H. rewrite selectRow_own by assumption. rewrite selectRow_acc.
  apply arr_includes_In in H. now rewrite H.
Qed.

Lemma selectRow_keys_acc (names : list jsstring) (row acc : obj) (c : jsstring) :
  In c (map fst (fold_left (fun selectedRow col =>
                              obj_set selectedRow col (obj_get row col))
                           names acc))
  <-> In c (map fst acc) \/ In c names.
Proof.
  revert acc. induction names as [|x xs IH]; intros acc; [simpl; tauto|].
  cbn [fold_left]. rewrite IH, obj_set_keys. simpl. intuition.
Qed.

Lemma select_ok (df : DataFrame) (names : list jsstring) (df' : DataFrame) :
  select df names = Ok df' ->
  names <> [] /\ forallb (arr_includes (getColumnNames df)) names = true /\
  df' = newDataFrame (map (selectRow names) (getRows df)).
Proof.
  unfold select. destruct names as [|c cs]; [discriminate|].
  destruct (verifyColumns (columns df) (c :: cs)) as [[]|e] eqn:E;
    cbn [bind]; [|discriminate].
  intros H. inversion H. apply verifyColumns_ok in E.
  repeat split; [discriminate | exact E].
Qed.

Lemma select_columns (df df' : DataFrame) (names : list jsstring) :
  arr_includes names PROTO = false ->
  select df names = Ok df' ->
  length df' = length df /\
  Forall (fun name => getColumn df' name = getColumn df name) names /\
  ((0 < length df)%nat ->
   forall name, In name (getColumnNames df') <-> In name names).
Proof.
  intros Hp H. apply select_ok in H as (_ & _ & ->).
  unfold length, getColumn, getColumnNames, getRows.
  rewrite newDataFrame_data.
  split; [apply length_map|]. split.
  - apply Forall_forall. intros name Hname. rewrite map_map.
    apply map_ext. intros row. now apply selectRow_get.
  - intros Hlen name.
    destruct (data df) as [|row rows]; [simpl in Hlen; lia|].
    cbn [map newDataFrame columns].
    rewrite Object_keys_order, keysOrder_In.
    rewrite selectRow_own by assumption.
    rewrite selectRow_keys_acc. simpl. tauto.
Qed.

(** A successful [select] of names other than [__proto__] keeps the
    number of rows and the cells of every selected column; when the table
    has a row, the columns of the result are exactly the selected names. *)
Theorem select_keeps_selected_columns (df df' : DataFrame)
  (columnNames : list jsstring) :
  arr_includes columnNames PROTO = false ->
  select df columnNames = Ok df' ->
  length df' = length df /\
  Forall (fun name => getColumn df' name = getColumn df name) columnNames /\
  ((0 < length df)%nat ->
   forall name, In name (getColumnNames df') <-> In name columnNames).
Proof. exact (select_columns df df' columnNames). Qed.

Lemma select_keeps_selected_columns_witness :
  length (newDataFrame (map (selectRow [str "b"])
                            (getRows (fromCSV (str "a,b" ++ [LF] ++ str "1,2") None))))
  = length (fromCSV (str "a,b" ++ [LF] ++ str "1,2") None).
Proof.
  apply (select_keeps_selected_columns
           (fromCSV (str "a,b" ++ [LF] ++ str "1,2") None) _ [str "b"]);
    reflexivity.
Defined.

(** [select] succeeds exactly when it is given at least one name and
    every name is a column; with no name it reports an invalid selection,
    and otherwise the first name, in the order given, that is not a
    column. *)
Theorem select_outcomes (df : DataFrame) (columnNames : list jsstring) :
  ((exists df', select df columnNames = Ok df')
   <-> columnNames <> [] /\
       forallb (arr_includes (getColumnNames df)) columnNames = true) /\
  (select df columnNames = Err InvalidSelection <-> columnNames = []) /\
  (forall name,
     select df columnNames = Err (UnknownColumn name)
     <-> exists before after,
           columnNames = before ++ name :: after /\
           forallb (arr_includes (getColumnNames df)) before = true /\
           arr_includes (getColumnNames df) name = false).
Proof.
  unfold select, getColumnNames. destruct columnNames as [|c cs].
  - split; [|split].
    + split; [intros [df' H]; discriminate | intros [H _]; congruence].
    + tauto.
    + intros name. split; [discriminate|].
      intros (before & after & E & _). destruct before; discriminate.
  - destruct (verifyColumns (columns df) (c :: cs)) as [[]|e] eqn:E; cbn [bind].
    + pose proof (proj1 (verifyColumns_ok _ _) E) as Hall.
      split; [|split].
      * split; [intros _; split; [discriminate | exact Hall] | eauto].
      * split; discriminate.
      * intros name. split; [discriminate|].
        intros (before & after & E' & _ & Hn).
        rewrite E', forallb_app in Hall.
        apply andb_true_iff in Hall as [_ Hall]. simpl in Hall.
        rewrite Hn in Hall. discriminate.
    + destruct (verifyColumns_first_missing _ _ _ E)
        as (before & name & after & E' & -> & Hb & Hn).
      split; [|split].
      * split; [intros [df' H]; discriminate|].
        intros [_ H]. apply verifyColumns_ok in H. congruence.
      * split; discriminate.
      * intros name'. split.
        -- intros H. inversion H. subst. eauto.
        -- intros (before' & after' & E2 & Hb' & Hn'). f_equal. f_equal.
           rewrite E2 in E'. clear - E' Hb Hn Hb' Hn'.
           revert before E' Hb.
           induction before' as [|x xs IH]; intros [|y ys] E' Hb; simpl in *.
           ++ now inversion E'.
           ++ inversion E'. subst. rewrite Hn' in Hb. discriminate.
           ++ inversion E'. subst. rewrite Hn in Hb'. discriminate.
           ++ inversion E'. subst.
              apply andb_true_iff in Hb as [_ Hb].
              apply andb_true_iff in Hb' as [_ Hb']. eauto.
Qed.

(** Selecting from a selection of names other than [__proto__]: the
    result still has every row, the names selected last are among those
    selected first, and the cells under them are those of the first
    table. *)
Theorem select_twice (df df1 df2 : DataFrame) (first second : list jsstring) :
  arr_includes first PROTO = false ->
  select df first = Ok df1 -> select df1 second = Ok df2 ->
  length df2 = length df /\
  Forall (fun name => In name first) second /\
  Forall (fun name => getColumn df2 name = getColumn df name) second.
Proof.
  intros Hfirst H1 H2.
  destruct (select_columns _ _ _ Hfirst H1) as (L1 & C1 & K1).
  pose proof H2 as H2'.
  apply select_ok in H2 as (Hne & Hall & _).
  assert (Hin : Forall (fun name => In name first) second).
  { apply Forall_forall. intros name Hname.
    rewrite forallb_forall in Hall. specialize (Hall name Hname).
    apply arr_includes_In in Hall.
    destruct (Nat.eq_dec (length df) 0) as [Hz | Hz].
    - apply select_ok in H1 as (_ & _ & ->).
      unfold length in Hz. unfold getColumnNames in Hall.
      destruct (data df) eqn:Ed; [|discriminate].
      unfold getRows in Hall. rewrite Ed in Hall. destruct Hall.
    - apply K1; [lia | assumption]. }
  assert (Hsecond : arr_includes second PROTO = false).
  { destruct (arr_includes second PROTO) eqn:E; [|reflexivity].
    apply arr_includes_In in E. rewrite Forall_forall in Hin.
    apply Hin, arr_includes_In in E. congruence. }
  destruct (select_columns _ _ _ Hsecond H2') as (L2 & C2 & _).
  repeat split; [congruence | assumption |].
  rewrite Forall_forall in *. intros name Hname.
  rewrite (C2 name Hname). apply C1. now apply Hin.
Qed.

Lemma select_twice_witness :
  getColumn (newDataFrame
               (map (selectRow [str "c"])
                    (map (selectRow [str "c"; str "a"])
                         (getRows (fromCSV (str "a,b,c" ++ [LF] ++ str "1,2,3") None)))))
            (str "c")
  = getColumn (fromCSV (str "a,b,c" ++ [LF] ++ str "1,2,3") None) (str "c").
Proof.
  refine (Forall_inv
            (proj2 (proj2
              (select_twice
                 (fromCSV (str "a,b,c" ++ [LF] ++ str "1,2,3") None) _ _
                 [str "c"; str "a"] [str "c"] _ _ _)))); reflexivity.
Defined.

(** ** More on the column checks *)

Lemma scanColumn_forallb (ok : jsvalue -> bool) (rows : list obj)
  (name : jsstring) :
  scanColumn ok rows name
  = forallb (fun v => isNullish v || ok v)
            (map (fun row => obj_get row name) rows).
Proof.
  induction rows as [|row rest IH]; [reflexivity|].
  cbn [scanColumn map forallb]. cbv zeta. rewrite <- IH.
  destruct (isNullish (obj_get row name)); [reflexivity|].
  destruct (ok (obj_get row name)); reflexivity.
Qed.

Lemma kinds_split (cells : list jsvalue) :
  let allNumbers := forallb (fun v => isNullish v || isNumberValue v) cells in
  let allStrings := forallb (fun v => isNullish v || isStringValue v) cells in
  allNumbers && negb allStrings = allNumbers && existsb isNumberValue cells /\
  allStrings && negb allNumbers = allStrings && existsb isStringValue cells.
Proof.
  induction cells as [|v vs IH]; [split; reflexivity|].
  cbv zeta in *. cbn [forallb existsb].
  destruct IH as [IH1 IH2].
  destruct (forallb (fun v => isNullish v || isNumberValue v) vs),
           (forallb (fun v => isNullish v || isStringValue v) vs),
           (existsb isNumberValue vs), (existsb isStringValue vs);
    try discriminate;
    destruct v as [| |b|[|neg|d]|s]; split; reflexivity.
Qed.

(** In a table with a row, for one of its columns: [isNumeric] tells
    whether every cell is null, undefined or a number other than NaN,
    [isString] whether every cell is null, undefined or a string, and the
    column type is number when all cells pass the first test and one of
    them is a number, string when all pass the second and one is a
    string, and mixed in every other case. *)
Theorem column_type_answers (df : DataFrame) (columnName : jsstring) :
  (0 < length df)%nat ->
  arr_includes (getColumnNames df) columnName = true ->
  let cells := getColumn df columnName in
  let allNumbers := forallb (fun v => isNullish v || isNumberValue v) cells in
  let allStrings := forallb (fun v => isNullish v || isStringValue v) cells in
  isNumeric df columnName = Ok allNumbers /\
  isString df columnName = Ok allStrings /\
  getColumnType df columnName
  = Ok (if allNumbers && existsb isNumberValue cells then TNumber
        else if allStrings && existsb isStringValue cells then TString
        else TMixed).
Proof.
  intros Hlen Hcol cells allNumbers allStrings.
  assert (Hn : isNumeric df columnName = Ok allNumbers).
  { unfold isNumeric. rewrite Hcol. cbn [negb].
    unfold length, getRows in *. destruct (data df) eqn:E; [simpl in Hlen; lia|].
    rewrite <- E. f_equal. apply scanColumn_forallb. }
  assert (Hs : isString df columnName = Ok allStrings).
  { unfold isString. rewrite Hcol. cbn [negb].
    unfold length, getRows in *. destruct (data df) eqn:E; [simpl in Hlen; lia|].
    rewrite <- E. f_equal. apply scanColumn_forallb. }
  repeat split; try assumption.
  unfold getColumnType. rewrite Hcol, Hn, Hs. cbn [negb bind].
  destruct (kinds_split cells) as [E1 E2]. cbv zeta in E1, E2.
  fold allNumbers allStrings in E1, E2. rewrite E1, E2.
  unfold length, getRows in *. destruct (data df); [simpl in Hlen; lia|].
  destruct (allNumbers && existsb isNumberValue cells); [reflexivity|].
  destruct (allStrings && existsb isStringValue cells); reflexivity.
Qed.

Lemma column_type_answers_witness :
  getColumnType (fromCSV (str "a,b" ++ [LF] ++ str "x,1" ++ [LF] ++ str ",oops")
                         None) (str "a")
  = Ok TString.
Proof.
  apply (column_type_answers
           (fromCSV (str "a,b" ++ [LF] ++ str "x,1" ++ [LF] ++ str ",oops") None)
           (str "a")).
  - unfold length. simpl. lia.
  - reflexivity.
Defined.

(** On a table the program can build that has no rows, the three type
    checks report an unknown column for every name: their answers for a
    table without rows (false and the empty type) are never given. *)
Theorem type_checks_on_empty_table (df : DataFrame) (columnName : jsstring) :
  reachable df -> length df = 0%nat ->
  isNumeric df columnName = Err (UnknownColumn columnName) /\
  isString df columnName = Err (UnknownColumn columnName) /\
  getColumnType df columnName = Err (UnknownColumn columnName).
Proof.
  intros Hr Hlen. destruct (reachable_is_new df Hr) as [rows ->].
  unfold length in Hlen. rewrite newDataFrame_data in Hlen.
  destruct rows; [|discriminate]. repeat split.
Qed.

Lemma type_checks_on_empty_table_witness :
  isNumeric (fromCSV [] None) (str "a") = Err (UnknownColumn (str "a")).
Proof.
  apply (type_checks_on_empty_table (fromCSV [] None) (str "a")).
  - apply reach_fromCSV.
  - reflexivity.
Defined.

Lemma count_true_le (mask : list bool) :
  (List.length (filter (fun val => val) mask) <= List.length mask)%nat.
Proof. apply filter_length_le. Qed.

Lemma exists_true_count (mask : list bool) :
  existsb (fun val => val) mask
  = (0 <? List.length (filter (fun val => val) mask))%nat.
Proof.
  induction mask as [|[|] mask IH]; simpl; [reflexivity | reflexivity | exact IH].
Qed.

Lemma count_negated (mask : list bool) :
  (List.length (filter (fun val => val) (map negb mask))
   + List.length (filter (fun val => val) mask) = List.length mask)%nat.
Proof.
  induction mask as [|[|] mask IH]; simpl; lia.
Qed.

Lemma null_and_NaN_apart (cells : list jsvalue) :
  (List.length (filter (fun val => val) (map isNullish cells))
   + List.length (filter (fun val => val) (map isNaNValue cells))
   <= List.length cells)%nat.
Proof.
  induction cells as [|v vs IH]; simpl; [lia|].
  destruct v as [| |b|[|neg|d]|s]; simpl; lia.
Qed.

(** The null checks of one column agree: the count is at most the number
    of rows, [hasNull] tells whether it is positive, the masks of [isNull]
    and [notNull] have one entry per row and are each other's negation,
    and [notNull] marks the remaining rows. *)
Theorem null_checks_agree (df : DataFrame) (columnName : jsstring) (n : nat) :
  countNull df columnName = Ok n ->
  (n <= length df)%nat /\
  hasNull df columnName = Ok (0 <? n)%nat /\
  exists mask,
    isNull df columnName = Ok mask /\
    notNull df columnName = Ok (map negb mask) /\
    List.length mask = length df /\
    List.length (filter (fun val => val) (map negb mask)) = (length df - n)%nat.
Proof.
  unfold countNull, hasNull, notNull.
  destruct (isNull df columnName) as [mask|e] eqn:E; cbn [bind]; [|discriminate].
  intros H. inversion H. subst n.
  assert (Hlen : List.length mask = length df).
  { unfold isNull in E.
    destruct (negb (arr_includes (getColumnNames df) columnName)); [discriminate|].
    inversion E. unfold length, getRows. apply length_map. }
  pose proof (count_true_le mask). pose proof (count_negated mask).
  repeat split.
  - lia.
  - now rewrite exists_true_count.
  - exists mask. repeat split; [assumption | lia].
Qed.

Lemma null_checks_agree_witness :
  hasNull (fromCSV (str "a" ++ [LF] ++ str "1" ++ [LF] ++ str "null") None)
          (str "a")
  = Ok (0 <? 1)%nat.
Proof.
  apply (null_checks_agree
           (fromCSV (str "a" ++ [LF] ++ str "1" ++ [LF] ++ str "null") None)
           (str "a") 1%nat).
  reflexivity.
Defined.

(** The NaN checks of one column agree, and no cell counts both as null
    and as NaN: [hasNaN] tells whether the NaN count is positive, and the
    two counts together are at most the number of rows. *)
Theorem NaN_checks_agree (df : DataFrame) (columnName : jsstring) (n : nat) :
  countNaN df columnName = Ok n ->
  hasNaN df columnName = Ok (0 <? n)%nat /\
  exists m, countNull df columnName = Ok m /\ (n + m <= length df)%nat.
Proof.
  unfold countNaN, hasNaN, countNull, isNaN, isNull.
  destruct (negb (arr_includes (getColumnNames df) columnName));
    cbn [bind]; [discriminate|].
  intros H. inversion H. split.
  - now rewrite exists_true_count.
  - eexists. split; [reflexivity|].
    pose proof (null_and_NaN_apart (getColumn df columnName)) as Hle.
    unfold getColumn in Hle. rewrite !map_map, length_map in Hle.
    unfold length, getRows. lia.
Qed.

Lemma NaN_checks_agree_witness :
  hasNaN (newDataFrame [[(str "a", VNum NaN)]; [(str "a", VNull)]]) (str "a")
  = Ok (0 <? 1)%nat.
Proof.
  apply (NaN_checks_agree
           (newDataFrame [[(str "a", VNum NaN)]; [(str "a", VNull)]])
           (str "a") 1%nat).
  reflexivity.
Defined.
